(** * The Calopoly room coordinator (dsns-calopoly-server/app/index.js)

    A shallow embedding of the socket.io event handlers of the game server
    and the properties of its room registry, identity reconciliation,
    mutation handlers and disconnect grace timer.

    Conventions of the embedding.
    - A JavaScript string is a [string]; one character stands for one
      UTF-16 code unit, so [String.length] is the [.length] of the source.
    - A JavaScript object that the code shares and mutates (a room) lives in
      a heap and is referred to by its address; arrays and player objects
      are only reachable through the room that holds them and are values.
    - The objects in a players array have the shape of the [Player]
      interface of the repository.
    - The registry is a plain object, so [rooms[k]] also finds what the
      object inherits. The embedding looks up registered identifiers only;
      [inherited_name] lists the identifiers for which the two differ. *)

From stdpp Require Import base list strings gmap.
From Stdlib Require Import ZArith.

(** ** Data model (the interfaces Player, Property and GameState) *)

Inductive PropertyType := attraction | property | utility | special | tax.

Record Property := mkProperty {
  prop_name : string;
  prop_type : PropertyType;
  price : option Z;
  houses : option Z;
  mortgaged : option bool;
  hotel : option bool;
  color : option string;
  ownerID : option string;
  rent : option (list Z)
}.

Module Player.
Record t := mk {
  position : Z;
  name : string;
  symbol : string;
  money : Z;
  properties : list Property;
  recentDiff : Z;
  id : string;
  socketID : string;
  roomID : option string;
  disconnected : option bool
}.

(** [player.socketID = v] and the other field assignments of the source. *)
Definition set_socketID (v : string) (p : t) : t :=
  mk (position p) (name p) (symbol p) (money p) (properties p)
     (recentDiff p) (id p) v (roomID p) (disconnected p).
Definition set_roomID (v : string) (p : t) : t :=
  mk (position p) (name p) (symbol p) (money p) (properties p)
     (recentDiff p) (id p) (socketID p) (Some v) (disconnected p).
Definition set_symbol (v : string) (p : t) : t :=
  mk (position p) (name p) v (money p) (properties p)
     (recentDiff p) (id p) (socketID p) (roomID p) (disconnected p).
Definition set_disconnected (v : bool) (p : t) : t :=
  mk (position p) (name p) (symbol p) (money p) (properties p)
     (recentDiff p) (id p) (socketID p) (roomID p) (Some v).

(** Truthiness of [p.disconnected]: [undefined] and [false] are falsy. *)
Definition is_disconnected (p : t) : bool :=
  match disconnected p with Some b => b | None => false end.
End Player.

Record Room := mkRoom {
  players : list Player.t;
  currentTurn : Z;
  dice : Z * Z;
  started : bool;
  chat : list string
}.

Definition set_players (ps : list Player.t) (r : Room) : Room :=
  mkRoom ps (currentTurn r) (dice r) (started r) (chat r).
Definition set_started (b : bool) (r : Room) : Room :=
  mkRoom (players r) (currentTurn r) (dice r) b (chat r).
Definition push_chat (m : string) (r : Room) : Room :=
  mkRoom (players r) (currentTurn r) (dice r) (started r) (chat r ++ [m]).

(** The object literal of line 41. *)
Definition emptyRoom : Room := mkRoom [] 0%Z (-1, -1)%Z false [].

(** ** Values on the wire *)

(** A JavaScript value as a handler receives it or as [JSON.parse] returns
    it. An array carries Player objects. *)
Inductive jsval :=
| JsNull
| JsBool (b : bool)
| JsNum (n : Z)
| JsStr (s : string)
| JsArray (ps : list Player.t)
| JsObject.

(** The [msg] argument of the JSON-carrying events: either the JSON text of
    a value, or a text on which [JSON.parse] throws. *)
Inductive payload :=
| Json (v : jsval)
| Garbage (raw : string).

Definition JSON_parse (msg : payload) : option jsval :=
  match msg with Json v => Some v | Garbage _ => None end.

Definition isValidJSON (msg : payload) : bool :=
  match JSON_parse msg with Some _ => true | None => false end.

Definition Array_isArray (v : jsval) : bool :=
  match v with JsArray _ => true | _ => false end.

(** [typeof v === "boolean"]. *)
Definition typeof_boolean (v : jsval) : bool :=
  match v with JsBool _ => true | _ => false end.

(** The argument of an emitted event. *)
Inductive Arg :=
| ArgTrue
| ArgState (r : Room)
| ArgPlayers (ps : list Player.t)
| ArgTurn (n : Z)
| ArgDice (d : Z * Z)
| ArgChat (c : list string)
| ArgRaw (msg : payload).

(** [socket.emit(ev, a)] and [io.to(roomID).emit(ev, a)]. *)
Inductive Emit :=
| ToSocket (sid : string) (ev : string) (a : Arg)
| ToRoom (roomID : string) (ev : string) (a : Arg).

(** ** The registry object [rooms]

    The own properties of [rooms] in creation order, each holding the
    address of a room object. *)

Fixpoint reg_lookup (k : string) (reg : list (string * nat)) : option nat :=
  match reg with
  | [] => None
  | (k', a) :: reg' => if decide (k' = k) then Some a else reg_lookup k reg'
  end.

(** [rooms[k] = a]: an existing property keeps its place, a new one goes
    last. *)
Fixpoint reg_set (k : string) (a : nat) (reg : list (string * nat))
  : list (string * nat) :=
  match reg with
  | [] => [(k, a)]
  | (k', a') :: reg' =>
      if decide (k' = k) then (k, a) :: reg' else (k', a') :: reg_set k a reg'
  end.

(** [delete rooms[k]]. *)
Definition reg_delete (k : string) (reg : list (string * nat))
  : list (string * nat) :=
  filter (λ kv, kv.1 ≠ k) reg.

(** The identifiers that [rooms[k]] can find although no room is registered
    under them, through the prototype of the plain object [rooms]: the
    members of [Object.prototype], and [players] and [started], which
    lines 66 and 84 write into [Object.prototype] when the event names
    the identifier [__proto__]. *)
Definition inherited_names : list string :=
  [ "constructor"; "__proto__"; "hasOwnProperty"; "isPrototypeOf";
    "propertyIsEnumerable"; "toLocaleString"; "toString"; "valueOf";
    "__defineGetter__"; "__defineSetter__"; "__lookupGetter__";
    "__lookupSetter__"; "players"; "started" ].

Definition inherited_name (k : string) : bool :=
  bool_decide (k ∈ inherited_names).

(** Order of [for (const roomID in rooms)]: the keys that are array
    indices in ascending numeric order, then the others in creation order. *)
Definition digit (c : Ascii.ascii) : option N :=
  let n := Ascii.N_of_ascii c in
  if ((48 <=? n) && (n <=? 57))%N then Some (n - 48)%N else None.

Fixpoint digits (s : string) (acc : N) : option N :=
  match s with
  | EmptyString => Some acc
  | String c s' =>
      match digit c with
      | Some d => digits s' (10 * acc + d)%N
      | None => None
      end
  end.

Definition array_index (s : string) : option N :=
  match s with
  | EmptyString => None
  | String c s' =>
      if bool_decide (digit c = Some 0%N ∧ s' ≠ EmptyString) then None
      else match digits s 0%N with
           | Some n => if (n <? 4294967295)%N then Some n else None
           | None => None
           end
  end.

Fixpoint insert_index (x : N * string) (l : list (N * string))
  : list (N * string) :=
  match l with
  | [] => [x]
  | y :: l' => if (x.1 <? y.1)%N then x :: l else y :: insert_index x l'
  end.

Definition index_keys (ks : list string) : list (N * string) :=
  foldr insert_index []
    (omap (λ k, match array_index k with Some n => Some (n, k) | None => None end) ks).

Definition for_in_keys (reg : list (string * nat)) : list string :=
  let ks := reg.*1 in
  (index_keys ks).*2 ++ filter (λ k, array_index k = None) ks.

(** ** Server state *)

(** The closure passed to [setTimeout] at line 112: it holds the room
    object, the room identifier, the socket id and the player object, of
    which it reads the name only. *)
Record Timer := mkTimer {
  tm_room : nat;
  tm_roomID : string;
  tm_socket : string;
  tm_name : string
}.

(** [heap]: the room objects ever created; [rooms]: the registry;
    [timers]: the scheduled eviction tasks, oldest first (all have the same
    delay, so they fire in this order); [subs]: the pairs (socket, room) of
    socket.io's broadcast groups. The table [disconnectTimers] is written
    at line 112 and never read, and is left out. *)
Record State := mkState {
  heap : list Room;
  rooms : list (string * nat);
  timers : list Timer;
  subs : gset (string * string)
}.

Definition init : State := mkState [] [] [] ∅.

Definition set_heap (h : list Room) (st : State) : State :=
  mkState h (rooms st) (timers st) (subs st).
Definition set_rooms (reg : list (string * nat)) (st : State) : State :=
  mkState (heap st) reg (timers st) (subs st).
Definition set_timers (ts : list Timer) (st : State) : State :=
  mkState (heap st) (rooms st) ts (subs st).
Definition set_subs (s : gset (string * string)) (st : State) : State :=
  mkState (heap st) (rooms st) (timers st) s.

(** [rooms[roomID]]: the address and the current contents of the room
    object, when the property exists. *)
Definition room_ref (st : State) (roomID : string) : option (nat * Room) :=
  match reg_lookup roomID (rooms st) with
  | Some a => match heap st !! a with Some r => Some (a, r) | None => None end
  | None => None
  end.

Definition room_at (st : State) (roomID : string) : option Room :=
  snd <$> room_ref st roomID.

(** A write through a reference to the room object at address [a]. *)
Definition store (a : nat) (r : Room) (st : State) : State :=
  set_heap (<[a := r]> (heap st)) st.

(** [socket.join(roomID)]. *)
Definition socket_join (sid roomID : string) (st : State) : State :=
  set_subs ({[ (sid, roomID) ]} ∪ subs st) st.

(** On a transport disconnect socket.io takes the socket out of every
    group before the "disconnect" listeners run. *)
Definition leave_all (sid : string) (st : State) : State :=
  set_subs (filter (λ sr, sr.1 ≠ sid) (subs st)) st.

(** ** join-room (lines 29-60) *)

Definition possibleSymbols : list string :=
  ["🐇"; "🐄"; "🐕"; "🐈"; "🐓"; "🐖"; "🐐"; "🐎"; "🐂"; "🐑"; "🐩"].

(** [o || d] on strings: the empty string is falsy. *)
Definition js_or (o : option string) (d : string) : string :=
  match o with
  | Some s => if decide (s = EmptyString) then d else s
  | None => d
  end.

(** Line 51, with [used] the array [usedSymbols]. *)
Definition pick_symbol (used : list string) : string :=
  js_or (snd <$> list_find (λ s, s ∉ used) possibleSymbols) "🐇".

(** The predicate of the [find] of line 35. *)
Definition name_clash (player p : Player.t) : Prop :=
  Player.name p = Player.name player ∧ Player.id p ≠ Player.id player.

#[global] Instance name_clash_dec player p : Decision (name_clash player p).
Proof. unfold name_clash. apply _. Defined.

(** Lines 40-42: the room object of [roomID], created when missing. *)
Definition ensure_room (roomID : string) (st : State) : State * nat * Room :=
  match room_ref st roomID with
  | Some (a, r) => (st, a, r)
  | None =>
      let a := length (heap st) in
      (set_rooms (reg_set roomID a (rooms st)) (set_heap (heap st ++ [emptyRoom]) st),
       a, emptyRoom)
  end.

(** Lines 44-53 on the room contents [r]. *)
Definition admit_player (sid roomID : string) (player : Player.t) (r : Room)
  : Room :=
  let player := Player.set_roomID roomID (Player.set_socketID sid player) in
  match list_find (λ p, Player.id p = Player.id player) (players r) with
  | Some _ => r
  | None =>
      let usedSymbols := Player.symbol <$> players r in
      set_players
        (players r ++ [Player.set_symbol (pick_symbol usedSymbols) player]) r
  end.

(** Lines 55-59. *)
Definition join_broadcast (roomID : string) (r : Room) : list Emit :=
  [ ToRoom roomID "joined-room" (ArgState r);
    ToRoom roomID "update-players" (ArgPlayers (players r));
    ToRoom roomID "update-turn" (ArgTurn (currentTurn r));
    ToRoom roomID "update-dice" (ArgDice (dice r));
    ToRoom roomID "update-chat" (ArgChat (chat r)) ].

Definition join_room (sid roomID : string) (player : option Player.t)
    (st : State) : State * list Emit :=
  match player with
  | None => (st, [])
  | Some player =>
      if decide (roomID = EmptyString) then (st, []) else
      let st := socket_join sid roomID st in
      match room_at st roomID ≫= λ r, list_find (name_clash player) (players r) with
      | Some _ => (st, [ToSocket sid "name-taken" ArgTrue])
      | None =>
          let '(st, a, r) := ensure_room roomID st in
          let r := admit_player sid roomID player r in
          (store a r st, join_broadcast roomID r)
      end
  end.

(** ** The mutation handlers (lines 62-93) *)

(** In [update_players] and [start_state] the pattern on the parsed value
    is the test [Array.isArray(players)], respectively
    [typeof started === "boolean"]. *)
Definition update_players (roomID : string) (msg : payload) (st : State)
  : State * list Emit :=
  if negb (isValidJSON msg) then (st, []) else
  match room_ref st roomID, JSON_parse msg with
  | Some (a, r), Some (JsArray ps) =>
      (store a (set_players ps r) st,
       [ToRoom roomID "update-players" (ArgPlayers ps)])
  | _, _ => (st, [])
  end.

Definition update_turn (roomID : string) (msg : payload) (st : State)
  : State * list Emit :=
  (st, [ToRoom roomID "update-turn" (ArgRaw msg)]).

Definition update_dice (roomID : string) (msg : payload) (st : State)
  : State * list Emit :=
  (st, [ToRoom roomID "update-dice" (ArgRaw msg)]).

Definition start_state (roomID : string) (msg : payload) (st : State)
  : State * list Emit :=
  if negb (isValidJSON msg) then (st, []) else
  match room_ref st roomID, JSON_parse msg with
  | Some (a, r), Some (JsBool b) =>
      (store a (set_started b r) st, [ToRoom roomID "start-state" (ArgRaw msg)])
  | _, _ => (st, [])
  end.

Definition on_chat (roomID : string) (msg : jsval) (st : State)
  : State * list Emit :=
  match room_ref st roomID, msg with
  | Some (a, r), JsStr s =>
      if (500 <? String.length s)%nat then (st, []) else
      let r := push_chat s r in
      (store a r st, [ToRoom roomID "chat" (ArgChat (chat r))])
  | _, _ => (st, [])
  end.

(** ** disconnect and the eviction task (lines 95-128) *)

(** The body of the loop of line 98 over the keys still to visit. *)
Fixpoint disconnect_scan (sid : string) (keys : list string) (st : State)
  : State * list Emit :=
  match keys with
  | [] => (st, [])
  | roomID :: keys' =>
      match room_ref st roomID with
      | Some (a, room) =>
          match list_find (λ p, Player.socketID p = sid) (players room) with
          | Some (playerIndex, player) =>
              let room := push_chat (Player.name player +:+ " disconnected. Waiting 60 seconds...") room in
              let out := [ToRoom roomID "chat" (ArgChat (chat room))] in
              let room :=
                set_players
                  (<[playerIndex := Player.set_disconnected true player]> (players room))
                  room in
              (set_timers
                 (timers st ++ [mkTimer a roomID sid (Player.name player)])
                 (store a room st),
               out)
          | None => disconnect_scan sid keys' st
          end
      | None => disconnect_scan sid keys' st
      end
  end.

Definition on_disconnect (sid : string) (st : State) : State * list Emit :=
  disconnect_scan sid (for_in_keys (rooms st)) st.

(** The callback of lines 112-124, run for the timer [t]. *)
Definition evict (t : Timer) (st : State) : State * list Emit :=
  match heap st !! tm_room t with
  | None => (st, [])
  | Some room =>
      match list_find (λ p, Player.socketID p = tm_socket t) (players room) with
      | Some (updatedIndex, p) =>
          if Player.is_disconnected p then
            let ps := delete updatedIndex (players room) in
            let st := store (tm_room t) (set_players ps room) st in
            let st :=
              if (length ps =? 0)%nat
              then set_rooms (reg_delete (tm_roomID t) (rooms st)) st
              else st in
            let out := [ToRoom (tm_roomID t) "update-players" (ArgPlayers ps)] in
            match room_ref st (tm_roomID t) with
            | Some (a, r) =>
                let r := push_chat (tm_name t +:+ " disconnected.") r in
                (store a r st,
                 out ++ [ToRoom (tm_roomID t) "chat" (ArgChat (chat r))])
            | None => (st, out)
            end
          else (st, [])
      | None => (st, [])
      end
  end.

(** ** Events and runs *)

Inductive Event :=
| JoinRoom (sid roomID : string) (player : option Player.t)
| UpdatePlayers (sid roomID : string) (msg : payload)
| UpdateTurn (sid roomID : string) (msg : payload)
| UpdateDice (sid roomID : string) (msg : payload)
| StartState (sid roomID : string) (msg : payload)
| Chat (sid roomID : string) (msg : jsval)
| Disconnect (sid : string)
| TimerFire.

Definition handle (e : Event) (st : State) : State * list Emit :=
  match e with
  | JoinRoom sid roomID player => join_room sid roomID player st
  | UpdatePlayers _ roomID msg => update_players roomID msg st
  | UpdateTurn _ roomID msg => update_turn roomID msg st
  | UpdateDice _ roomID msg => update_dice roomID msg st
  | StartState _ roomID msg => start_state roomID msg st
  | Chat _ roomID msg => on_chat roomID msg st
  | Disconnect sid => on_disconnect sid (leave_all sid st)
  | TimerFire =>
      match timers st with
      | [] => (st, [])
      | t :: ts => evict t (set_timers ts st)
      end
  end.

(** The state after a sequence of events, and everything emitted. *)
Fixpoint run (es : list Event) (st : State) : State * list Emit :=
  match es with
  | [] => (st, [])
  | e :: es' =>
      let '(st1, out1) := handle e st in
      let '(st2, out2) := run es' st1 in
      (st2, out1 ++ out2)
  end.

(** The states a server started with an empty registry can be in. *)
Inductive reachable : State → Prop :=
| reach_init : reachable init
| reach_step e st : reachable st → reachable (handle e st).1.

(** Whether [sid] is sent the emission [e] when the groups are [st]'s.
    The group every socket has under its own id is left out, so this is
    the delivery through groups joined with [socket.join]. *)
Definition receives (sid : string) (st : State) (e : Emit) : Prop :=
  match e with
  | ToSocket s _ _ => s = sid
  | ToRoom roomID _ _ => (sid, roomID) ∈ subs st
  end.

(** A player claim as a client sends it. *)
Definition claim (pid nm : string) : Player.t :=
  Player.mk 0%Z nm EmptyString 1000%Z [] 0%Z pid EmptyString None None.

(** The players of the room registered as [roomID]; none when it is not
    registered. *)
Definition players_of (st : State) (roomID : string) : list Player.t :=
  match room_at st roomID with Some r => players r | None => [] end.



(** The post-state and the emissions of every step of a run. *)
Fixpoint trace (es : list Event) (st : State) : list (State * list Emit) :=
  match es with
  | [] => []
  | e :: es' => handle e st :: trace es' (handle e st).1
  end.

(** What every reachable state satisfies: registered identifiers are
    truthy and refer to allocated objects, and no room object ever has a
    turn or dice other than the initial ones. *)
Record wf (st : State) : Prop := mkWf {
  wf_keys : Forall (λ kv, kv.1 ≠ EmptyString) (rooms st);
  wf_addr : Forall (λ kv, kv.2 < length (heap st)) (rooms st);
  wf_turn : Forall (λ r, currentTurn r = 0%Z ∧ dice r = (-1, -1)%Z) (heap st)
}.



(** ** Scenarios *)

Definition alice : Player.t := claim "1" "Alice".
Definition bob : Player.t := claim "2" "Bob".

(** Alice and Bob join ABC123, then Bob's connection drops. *)
Definition bob_dropped : State :=
  (run [JoinRoom "s1" "ABC123" (Some alice);
        JoinRoom "s2" "ABC123" (Some bob);
        Disconnect "s2"] init).1.

(** Bob comes back on a new connection before the task fires. *)
Definition bob_rejoined : State :=
  (handle (JoinRoom "s3" "ABC123" (Some bob)) bob_dropped).1.


(** A second connection was refused the name Alice in ABC123, then Alice
    left and was evicted, which deleted the room. *)
Definition room_gone : State :=
  (run [JoinRoom "s1" "ABC123" (Some alice);
        JoinRoom "s2" "ABC123" (Some (claim "2" "Alice"));
        Disconnect "s1";
        TimerFire] init).1.

(** Alice alone in ABC123, and her room as the server holds it. *)
Definition alice_alone : State :=
  (run [JoinRoom "s1" "ABC123" (Some alice)] init).1.

Definition alice_room : Room :=
  mkRoom [Player.mk 0%Z "Alice" "🐇" 1000%Z [] 0%Z "1" "s1" (Some "ABC123") None]
         0%Z (-1, -1)%Z false [].

(** ** Relations between states *)

(** The room identifier an event names, for the events that name one. *)
Definition event_room (e : Event) : option string :=
  match e with
  | JoinRoom _ k _ | UpdatePlayers _ k _ | UpdateTurn _ k _
  | UpdateDice _ k _ | StartState _ k _ | Chat _ k _ => Some k
  | Disconnect _ | TimerFire => None
  end.

(** Every room object of [h] is still there in [h'], related by [R]. *)
Definition heap_le (R : Room → Room → Prop) (h h' : list Room) : Prop :=
  ∀ a r, h !! a = Some r → ∃ r', h' !! a = Some r' ∧ R r r'.

(** The chat of [r'] extends the chat of [r]. *)
Definition chat_grows (r r' : Room) : Prop := chat r `prefix_of` chat r'.

(** [r'] is [r] except that players may have been flagged disconnected
    and chat lines may have been appended: every player record of [r'] is
    the record of [r] at the same place, as it was or with its
    disconnected flag set, and turn, dice and started flag are the same. *)
Definition same_seats (r r' : Room) : Prop :=
  Forall2 (λ p p', p' = p ∨ p' = Player.set_disconnected true p)
    (players r) (players r') ∧
  currentTurn r' = currentTurn r ∧ dice r' = dice r ∧
  started r' = started r ∧ chat r `prefix_of` chat r'.

(** No two players of the room share a stable id or a display name. *)
Definition distinct_players (r : Room) : Prop :=
  NoDup (Player.id <$> players r) ∧ NoDup (Player.name <$> players r).

(** How registry, room objects and eviction tasks hang together in every
    reachable state: an identifier names one room object and a room
    object has one identifier; registered objects and the objects held
    by tasks exist; a task's object, while registered, is registered
    under the task's room identifier; and a room object that has players
    is registered. *)
Record tidy (st : State) : Prop := mkTidy {
  tidy_keys : ∀ k a1 a2, (k, a1) ∈ rooms st → (k, a2) ∈ rooms st → a1 = a2;
  tidy_addrs : ∀ k1 k2 a, (k1, a) ∈ rooms st → (k2, a) ∈ rooms st → k1 = k2;
  tidy_bound : ∀ k a, (k, a) ∈ rooms st → a < length (heap st);
  tidy_timers : ∀ t, t ∈ timers st →
    tm_room t < length (heap st) ∧
    ∀ k, (k, tm_room t) ∈ rooms st → k = tm_roomID t;
  tidy_seated : ∀ a r, heap st !! a = Some r → players r ≠ [] →
    ∃ k, (k, a) ∈ rooms st
}.

(** Bob's room and eviction task in [bob_dropped]. *)
Definition bob_dropped_room : Room :=
  Eval vm_compute in default emptyRoom (heap bob_dropped !! 0).
Definition bob_timer : Timer := mkTimer 0 "ABC123" "s2" "Bob".

Definition bob_flagged : Player.t :=
  Eval vm_compute in default bob (players bob_dropped_room !! 1).

Definition carol : Player.t := claim "3" "Carol".

Definition alice_flagged : Player.t :=
  Player.mk 0%Z "Alice" "🐇" 1000%Z [] 0%Z "1" "s1" (Some "ABC123") (Some true).

(** Alice and Bob both drop; a client overwrites the players of ABC123
    with Alice alone; Alice's task empties and deletes the room; Carol
    then joins ABC123, which creates it anew while Bob's task is pending. *)
Definition room_recreated : State :=
  (run [JoinRoom "s1" "ABC123" (Some alice);
        JoinRoom "s2" "ABC123" (Some bob);
        Disconnect "s1";
        Disconnect "s2";
        UpdatePlayers "s9" "ABC123" (Json (JsArray [alice_flagged]));
        TimerFire;
        JoinRoom "s3" "ABC123" (Some carol)] init).1.

(** Bob's record as a client would send it after he reconnected on s3. *)
Definition bob_back : Player.t :=
  Player.mk 0%Z "Bob" "🐄" 1000%Z [] 0%Z "2" "s3" (Some "ABC123") (Some false).

(** ** The registry and the heap *)

Lemma reg_lookup_set_eq k a reg : reg_lookup k (reg_set k a reg) = Some a.
Proof.
  induction reg as [|[k' a'] reg IH]; simpl.
  - by rewrite decide_True.
  - destruct (decide (k' = k)) as [->|Hne]; simpl.
    + by rewrite decide_True.
    + by rewrite decide_False.
Qed.

Lemma reg_lookup_set_ne k k' a reg :
  k ≠ k' → reg_lookup k' (reg_set k a reg) = reg_lookup k' reg.
Proof.
  intros Hne. induction reg as [|[k0 a0] reg IH]; simpl.
  - by rewrite decide_False.
  - destruct (decide (k0 = k)) as [->|Hne0]; simpl.
    + by rewrite !decide_False.
    + destruct (decide (k0 = k')); [done | apply IH].
Qed.

Lemma reg_lookup_delete_eq k reg : reg_lookup k (reg_delete k reg) = None.
Proof.
  unfold reg_delete. induction reg as [|[k' a'] reg IH]; [done|].
  rewrite filter_cons. simpl. destruct (decide (k' ≠ k)) as [Hne|Heq]; simpl.
  - by rewrite decide_False.
  - done.
Qed.

Lemma reg_lookup_delete_ne k k' reg :
  k ≠ k' → reg_lookup k' (reg_delete k reg) = reg_lookup k' reg.
Proof.
  intros Hne. unfold reg_delete. induction reg as [|[k0 a0] reg IH]; [done|].
  rewrite filter_cons. simpl. destruct (decide (k0 ≠ k)) as [Hne0|Heq]; simpl.
  - by rewrite IH.
  - apply dec_stable in Heq as ->. by rewrite decide_False.
Qed.

Lemma reg_lookup_elem k a reg : reg_lookup k reg = Some a → (k, a) ∈ reg.
Proof.
  induction reg as [|[k' a'] reg IH]; simpl; [done|].
  destruct (decide (k' = k)) as [->|Hne].
  - intros [= ->]. apply list_elem_of_here.
  - intros H. apply list_elem_of_further. by apply IH.
Qed.

Lemma Forall_reg_set (P : string * nat → Prop) k a reg :
  P (k, a) → Forall P reg → Forall P (reg_set k a reg).
Proof.
  intros Hk. induction 1 as [|[k' a'] reg Hx Hreg IH]; simpl.
  - by repeat constructor.
  - destruct (decide (k' = k)); constructor; done.
Qed.

Lemma Forall_reg_delete (P : string * nat → Prop) k reg :
  Forall P reg → Forall P (reg_delete k reg).
Proof.
  unfold reg_delete. intros H. apply Forall_forall. intros x Hx.
  apply list_elem_of_filter in Hx as [_ Hx]. by eapply Forall_forall in H.
Qed.

Lemma room_ref_Some st roomID a r :
  room_ref st roomID = Some (a, r) ↔
  reg_lookup roomID (rooms st) = Some a ∧ heap st !! a = Some r.
Proof.
  unfold room_ref. destruct (reg_lookup roomID (rooms st)) as [a'|].
  - destruct (heap st !! a') as [r'|] eqn:E; split.
    + by intros [= -> ->].
    + intros [[= ->] H]. rewrite E in H. by injection H as ->.
    + done.
    + intros [[= ->] H]. by rewrite E in H.
  - split; [done | by intros [? _]].
Qed.

Lemma room_at_Some st roomID r :
  room_at st roomID = Some r ↔ ∃ a, room_ref st roomID = Some (a, r).
Proof.
  unfold room_at. destruct (room_ref st roomID) as [[a r']|]; simpl; split.
  - intros [= ->]. by exists a.
  - by intros [a' [= _ ->]].
  - done.
  - by intros [a' ?].
Qed.

Lemma room_ref_None_unregistered st roomID :
  reg_lookup roomID (rooms st) = None → room_ref st roomID = None.
Proof. unfold room_ref. by intros ->. Qed.

Lemma room_ref_store st roomID a r r' :
  room_ref st roomID = Some (a, r) →
  room_ref (store a r' st) roomID = Some (a, r').
Proof.
  intros [Hk Ha]%room_ref_Some. apply room_ref_Some. split; [done|].
  simpl. apply list_lookup_insert_eq. by eapply lookup_lt_Some.
Qed.

Lemma room_at_store st roomID a r r' :
  room_ref st roomID = Some (a, r) →
  room_at (store a r' st) roomID = Some r'.
Proof.
  intros H. apply room_at_Some. exists a. by eapply room_ref_store.
Qed.


(** ** The mutation handlers *)

Lemma update_players_rejects st sid roomID msg :
  (∀ ps, JSON_parse msg ≠ Some (JsArray ps)) →
  handle (UpdatePlayers sid roomID msg) st = (st, []).
Proof.
  intros H. simpl. unfold update_players, isValidJSON.
  destruct (JSON_parse msg) as [v|]; simpl; [|done].
  destruct (room_ref st roomID) as [[a r]|]; [|done].
  destruct v; try done. by destruct (H ps).
Qed.

Lemma start_state_rejects st sid roomID msg :
  (∀ b, JSON_parse msg ≠ Some (JsBool b)) →
  handle (StartState sid roomID msg) st = (st, []).
Proof.
  intros H. simpl. unfold start_state, isValidJSON.
  destruct (JSON_parse msg) as [v|]; simpl; [|done].
  destruct (room_ref st roomID) as [[a r]|]; [|done].
  destruct v; try done. by destruct (H b).
Qed.

Lemma not_array v : Array_isArray v = false → ∀ ps, v ≠ JsArray ps.
Proof. by destruct v. Qed.

Lemma not_boolean v : typeof_boolean v = false → ∀ b, v ≠ JsBool b.
Proof. by destruct v. Qed.

(** C6. On an existing room, update-players and start-state with a
    payload that is not valid JSON or has the wrong shape (not an array,
    not a boolean) leave the whole server state as it was and emit nothing;
    with a valid payload update-players replaces the player sequence of the
    room by the parsed one, start-state stores the parsed boolean, and each
    broadcasts to the room. *)
Theorem update_players_and_start_state
    (st : State) (sid roomID : string) (msg : payload) (r : Room) :
  room_at st roomID = Some r →
  (isValidJSON msg = false ∨
   (∃ v, JSON_parse msg = Some v ∧ Array_isArray v = false) →
   handle (UpdatePlayers sid roomID msg) st = (st, [])) ∧
  (isValidJSON msg = false ∨
   (∃ v, JSON_parse msg = Some v ∧ typeof_boolean v = false) →
   handle (StartState sid roomID msg) st = (st, [])) ∧
  (∀ ps, JSON_parse msg = Some (JsArray ps) →
     ∃ a, reg_lookup roomID (rooms st) = Some a ∧
       handle (UpdatePlayers sid roomID msg) st =
         (store a (set_players ps r) st,
          [ToRoom roomID "update-players" (ArgPlayers ps)]) ∧
       room_at (store a (set_players ps r) st) roomID =
         Some (mkRoom ps (currentTurn r) (dice r) (started r) (chat r))) ∧
  (∀ b, JSON_parse msg = Some (JsBool b) →
     ∃ a, reg_lookup roomID (rooms st) = Some a ∧
       handle (StartState sid roomID msg) st =
         (store a (set_started b r) st,
          [ToRoom roomID "start-state" (ArgRaw msg)]) ∧
       room_at (store a (set_started b r) st) roomID =
         Some (mkRoom (players r) (currentTurn r) (dice r) b (chat r))).
Proof.
  intros [a Hr]%room_at_Some. repeat split.
  - intros [Hv|(v & Hv & Hs)]; apply update_players_rejects; intros ps Hps.
    + unfold isValidJSON in Hv. by rewrite Hps in Hv.
    + rewrite Hv in Hps. injection Hps as ->. done.
  - intros [Hv|(v & Hv & Hs)]; apply start_state_rejects; intros b Hb.
    + unfold isValidJSON in Hv. by rewrite Hb in Hv.
    + rewrite Hv in Hb. injection Hb as ->. done.
  - intros ps Hps. exists a. split; [by apply room_ref_Some in Hr as [? _]|].
    split; [|by eapply room_at_store].
    simpl. unfold update_players, isValidJSON. by rewrite Hps, Hr.
  - intros b Hb. exists a. split; [by apply room_ref_Some in Hr as [? _]|].
    split; [|by eapply room_at_store].
    simpl. unfold start_state, isValidJSON. by rewrite Hb, Hr.
Qed.

(** C7. On an existing room, a chat message that is not a string or is
    longer than 500 leaves the state as it was and emits nothing; a string
    of length at most 500 is appended to the chat sequence of the room and
    the whole updated sequence is broadcast to the room. *)
Theorem chat_length_rule
    (st : State) (sid roomID : string) (msg : jsval) (r : Room) :
  room_at st roomID = Some r →
  ((∀ s, msg = JsStr s → 500 < String.length s) →
   handle (Chat sid roomID msg) st = (st, [])) ∧
  (∀ s, msg = JsStr s → String.length s ≤ 500 →
     ∃ a, reg_lookup roomID (rooms st) = Some a ∧
       handle (Chat sid roomID msg) st =
         (store a (push_chat s r) st,
          [ToRoom roomID "chat" (ArgChat (chat r ++ [s]))]) ∧
       room_at (store a (push_chat s r) st) roomID =
         Some (mkRoom (players r) (currentTurn r) (dice r) (started r)
                      (chat r ++ [s]))).
Proof.
  intros [a Hr]%room_at_Some. split.
  - intros H. simpl. unfold on_chat. rewrite Hr. destruct msg; try done.
    specialize (H s eq_refl).
    by destruct (Nat.ltb_spec 500 (String.length s)); [|lia].
  - intros s -> Hlen. exists a. split; [by apply room_ref_Some in Hr as [? _]|].
    split; [|by eapply room_at_store].
    simpl. unfold on_chat. rewrite Hr.
    by destruct (Nat.ltb_spec 500 (String.length s)); [lia|].
Qed.

(** C5 as amended. When the room identifier is not in the registry and
    is not a name the registry object inherits, update-players, start-state
    and chat leave the state as it was and emit nothing; when it is not in
    the registry, update-turn and update-dice also leave the state as it
    was (no room is created), but still send the payload, as received, to
    the broadcast group of that identifier. *)
Theorem unknown_room_events
    (st : State) (sid roomID : string) (msg : payload) (m : jsval) :
  reg_lookup roomID (rooms st) = None →
  (inherited_name roomID = false →
   handle (UpdatePlayers sid roomID msg) st = (st, []) ∧
   handle (StartState sid roomID msg) st = (st, []) ∧
   handle (Chat sid roomID m) st = (st, [])) ∧
  handle (UpdateTurn sid roomID msg) st =
    (st, [ToRoom roomID "update-turn" (ArgRaw msg)]) ∧
  handle (UpdateDice sid roomID msg) st =
    (st, [ToRoom roomID "update-dice" (ArgRaw msg)]).
Proof.
  intros H%room_ref_None_unregistered. split; [|done]. intros _. simpl.
  unfold update_players, start_state, on_chat. rewrite H.
  repeat split; by destruct (negb _).
Qed.

(** ** join-room *)

Lemma find_clash_Some (c : Player.t) (ps : list Player.t) :
  Exists (name_clash c) ps → is_Some (list_find (name_clash c) ps).
Proof.
  intros (p & Hp & Hc)%Exists_exists.
  destruct (list_find (name_clash c) ps) as [x|] eqn:E; [by eexists|].
  apply list_find_None in E. by eapply Forall_forall in E.
Qed.

Lemma find_clash_None (c : Player.t) (ps : list Player.t) :
  ¬ Exists (name_clash c) ps → list_find (name_clash c) ps = None.
Proof.
  intros H. apply list_find_None, Forall_forall. intros p Hp Hc.
  apply H, Exists_exists. eauto.
Qed.

Lemma join_room_rejected st sid roomID c r :
  roomID ≠ EmptyString →
  room_at st roomID = Some r →
  Exists (name_clash c) (players r) →
  join_room sid roomID (Some c) st =
    (socket_join sid roomID st, [ToSocket sid "name-taken" ArgTrue]).
Proof.
  intros Hne Hr [x Hx]%find_clash_Some. unfold join_room.
  rewrite decide_False by done.
  change (room_at (socket_join sid roomID st) roomID) with (room_at st roomID).
  rewrite Hr. simpl. by rewrite Hx.
Qed.

Lemma join_room_accepted st sid roomID c :
  roomID ≠ EmptyString →
  ¬ Exists (name_clash c) (players_of st roomID) →
  join_room sid roomID (Some c) st =
    (store (ensure_room roomID (socket_join sid roomID st)).1.2
       (admit_player sid roomID c (ensure_room roomID (socket_join sid roomID st)).2)
       (ensure_room roomID (socket_join sid roomID st)).1.1,
     join_broadcast roomID
       (admit_player sid roomID c (ensure_room roomID (socket_join sid roomID st)).2)).
Proof.
  intros Hne Hc. unfold join_room. rewrite decide_False by done.
  change (room_at (socket_join sid roomID st) roomID) with (room_at st roomID).
  unfold players_of in Hc.
  destruct (room_at st roomID) as [r|] eqn:Hr; simpl.
  - rewrite (find_clash_None _ _ Hc).
    by destruct (ensure_room _ _) as [[st1 a] r1].
  - by destruct (ensure_room _ _) as [[st1 a] r1].
Qed.

Lemma ensure_room_existing st roomID a r :
  room_ref st roomID = Some (a, r) → ensure_room roomID st = (st, a, r).
Proof. unfold ensure_room. by intros ->. Qed.

Lemma ensure_room_new st roomID :
  room_ref st roomID = None →
  ensure_room roomID st =
    (set_rooms (reg_set roomID (length (heap st)) (rooms st))
       (set_heap (heap st ++ [emptyRoom]) st),
     length (heap st), emptyRoom).
Proof. unfold ensure_room. by intros ->. Qed.

Lemma ensure_room_ref st roomID :
  room_ref (ensure_room roomID st).1.1 roomID =
    Some ((ensure_room roomID st).1.2, (ensure_room roomID st).2).
Proof.
  destruct (room_ref st roomID) as [[a r]|] eqn:E.
  - by rewrite (ensure_room_existing _ _ _ _ E).
  - rewrite (ensure_room_new _ _ E). simpl. apply room_ref_Some. simpl.
    split; [apply reg_lookup_set_eq|].
    by rewrite lookup_app_r, Nat.sub_diag.
Qed.

Lemma pick_symbol_nil : pick_symbol [] = "🐇".
Proof. by vm_compute. Qed.

(** What C8 says holds for the identifiers that are not inherited names:
    a join-room with a truthy room identifier and player claim, for such
    an identifier that is not in the registry, creates the room as exactly
    (no players, turn 0, dice (-1,-1), not started, empty chat) and then
    appends the joining player to it. *)
Theorem join_unknown_room_creates
    (st : State) (sid roomID : string) (c : Player.t) :
  roomID ≠ EmptyString →
  inherited_name roomID = false →
  reg_lookup roomID (rooms st) = None →
  let p := Player.set_symbol "🐇"
             (Player.set_roomID roomID (Player.set_socketID sid c)) in
  let r := mkRoom [p] 0%Z (-1, -1)%Z false [] in
  room_at (ensure_room roomID (socket_join sid roomID st)).1.1 roomID =
    Some (mkRoom [] 0%Z (-1, -1)%Z false []) ∧
  (ensure_room roomID (socket_join sid roomID st)).2 =
    mkRoom [] 0%Z (-1, -1)%Z false [] ∧
  room_at (handle (JoinRoom sid roomID (Some c)) st).1 roomID = Some r ∧
  (handle (JoinRoom sid roomID (Some c)) st).2 = join_broadcast roomID r ∧
  (∀ a r', heap st !! a = Some r' →
           heap (handle (JoinRoom sid roomID (Some c)) st).1 !! a = Some r').
Proof.
  intros Hne _ Hk p r.
  assert (Hnone : room_ref (socket_join sid roomID st) roomID = None)
    by by apply room_ref_None_unregistered.
  assert (Hat : room_at st roomID = None).
  { unfold room_at. change (room_ref st roomID) with
      (room_ref (socket_join sid roomID st) roomID). by rewrite Hnone. }
  pose proof (ensure_room_ref (socket_join sid roomID st) roomID) as Href.
  change (handle (JoinRoom sid roomID (Some c)) st)
    with (join_room sid roomID (Some c) st).
  rewrite join_room_accepted; [|done|].
  2:{ unfold players_of. rewrite Hat. by intros ?%Exists_nil. }
  rewrite (ensure_room_new _ _ Hnone) in *. simpl fst in *. simpl snd in *.
  assert (Hadm : admit_player sid roomID c emptyRoom = r).
  { unfold admit_player. simpl. by rewrite pick_symbol_nil. }
  rewrite Hadm. repeat split.
  - apply room_at_Some. eauto.
  - by eapply room_at_store.
  - intros a r' Ha. simpl. rewrite list_lookup_insert_ne.
    + by apply lookup_app_l_Some.
    + apply lookup_lt_Some in Ha. lia.
Qed.

(** ** What holds in every reachable state *)

Lemma wf_init : wf init.
Proof. by constructor. Qed.

Lemma wf_same st st' :
  rooms st' = rooms st → heap st' = heap st → wf st → wf st'.
Proof. intros Hr Hh [? ? ?]. constructor; by rewrite ?Hr, ?Hh. Qed.

Lemma wf_store a r r' st :
  wf st → heap st !! a = Some r →
  currentTurn r' = currentTurn r → dice r' = dice r →
  wf (store a r' st).
Proof.
  intros [Hk Ha Ht] Hr Hturn Hdice. constructor; simpl.
  - done.
  - by rewrite length_insert.
  - apply Forall_insert; [done|]. rewrite Hturn, Hdice.
    by eapply Forall_lookup_1 in Ht.
Qed.

Lemma wf_delete k st : wf st → wf (set_rooms (reg_delete k (rooms st)) st).
Proof.
  intros [Hk Ha Ht]. constructor; simpl; [| |done]; by apply Forall_reg_delete.
Qed.

Lemma wf_ensure_room roomID st :
  roomID ≠ EmptyString → wf st → wf (ensure_room roomID st).1.1.
Proof.
  intros Hne Hwf. destruct (room_ref st roomID) as [[a r]|] eqn:E.
  - by rewrite (ensure_room_existing _ _ _ _ E).
  - rewrite (ensure_room_new _ _ E). destruct Hwf as [Hk Ha Ht].
    constructor; simpl.
    + by apply Forall_reg_set.
    + rewrite length_app. simpl. apply Forall_reg_set; simpl; [lia|].
      eapply Forall_impl; [exact Ha|]. simpl. lia.
    + apply Forall_app. split; [done|]. by repeat constructor.
Qed.

Lemma admit_player_turn sid roomID c r :
  currentTurn (admit_player sid roomID c r) = currentTurn r ∧
  dice (admit_player sid roomID c r) = dice r.
Proof. unfold admit_player. by destruct (list_find _ _). Qed.

Lemma wf_join_room sid roomID player st :
  wf st → wf (join_room sid roomID player st).1.
Proof.
  intros Hwf. unfold join_room. destruct player as [c|]; [|done].
  destruct (decide (roomID = EmptyString)); [done|].
  destruct (_ ≫= _); [simpl; eapply wf_same; [| |exact Hwf]; done|].
  pose proof (ensure_room_ref (socket_join sid roomID st) roomID) as Href.
  pose proof (wf_ensure_room roomID (socket_join sid roomID st)) as Hens.
  destruct (ensure_room _ _) as [[st1 a] r1]. simpl in *.
  apply room_ref_Some in Href as [_ Hr1].
  eapply wf_store; [|done|apply admit_player_turn..].
  apply Hens; [done|]. eapply wf_same; [| |exact Hwf]; done.
Qed.

Lemma wf_update_players roomID msg st :
  wf st → wf (update_players roomID msg st).1.
Proof.
  intros Hwf. unfold update_players. destruct (negb _); [done|].
  destruct (room_ref st roomID) as [[a r]|] eqn:E; [|done].
  destruct (JSON_parse msg) as [[]|]; try done. simpl.
  apply room_ref_Some in E as [_ E]. by eapply wf_store.
Qed.

Lemma wf_start_state roomID msg st :
  wf st → wf (start_state roomID msg st).1.
Proof.
  intros Hwf. unfold start_state. destruct (negb _); [done|].
  destruct (room_ref st roomID) as [[a r]|] eqn:E; [|done].
  destruct (JSON_parse msg) as [[]|]; try done. simpl.
  apply room_ref_Some in E as [_ E]. by eapply wf_store.
Qed.

Lemma wf_on_chat roomID msg st : wf st → wf (on_chat roomID msg st).1.
Proof.
  intros Hwf. unfold on_chat.
  destruct (room_ref st roomID) as [[a r]|] eqn:E; [|done].
  destruct msg; try done. destruct (_ <? _); [done|]. simpl.
  apply room_ref_Some in E as [_ E]. by eapply wf_store.
Qed.

Lemma wf_disconnect_scan sid keys st :
  wf st → wf (disconnect_scan sid keys st).1.
Proof.
  intros Hwf. induction keys as [|k keys IH]; simpl; [done|].
  destruct (room_ref st k) as [[a r]|] eqn:E; [|done].
  destruct (list_find _ (players r)) as [[i p]|]; [|done]. simpl.
  apply room_ref_Some in E as [_ E].
  eapply wf_same; [| |eapply (wf_store a r); [exact Hwf|exact E|..]];
    [reflexivity..].
Qed.

Lemma wf_evict t st : wf st → wf (evict t st).1.
Proof.
  intros Hwf. unfold evict.
  destruct (heap st !! tm_room t) as [room|] eqn:E; [|done].
  destruct (list_find _ (players room)) as [[i p]|]; [|done].
  destruct (Player.is_disconnected p); [|done].
  set (st1 := store (tm_room t) (set_players (delete i (players room)) room) st).
  assert (Hwf1 : wf st1) by by eapply wf_store.
  set (st2 := if (length (delete i (players room)) =? 0)%nat
              then set_rooms (reg_delete (tm_roomID t) (rooms st1)) st1
              else st1).
  assert (Hwf2 : wf st2).
  { unfold st2. destruct (_ =? _)%nat; [by apply wf_delete | done]. }
  destruct (room_ref st2 (tm_roomID t)) as [[a r]|] eqn:E2; [|done]. simpl.
  apply room_ref_Some in E2 as [_ E2]. by eapply wf_store.
Qed.

Lemma wf_handle e st : wf st → wf (handle e st).1.
Proof.
  intros Hwf. destruct e; simpl.
  - by apply wf_join_room.
  - by apply wf_update_players.
  - done.
  - done.
  - by apply wf_start_state.
  - by apply wf_on_chat.
  - apply wf_disconnect_scan. eapply wf_same; [| |exact Hwf]; done.
  - destruct (timers st) as [|t ts]; [done|]. apply wf_evict.
    eapply wf_same; [| |exact Hwf]; done.
Qed.

Lemma reachable_wf st : reachable st → wf st.
Proof. induction 1; [apply wf_init | by apply wf_handle]. Qed.

Lemma reachable_run es st : reachable st → reachable (run es st).1.
Proof.
  revert st. induction es as [|e es IH]; intros st Hst; simpl; [done|].
  specialize (IH _ (reach_step e st Hst)).
  destruct (handle e st) as [st1 out1]. simpl in IH.
  by destruct (run es st1) as [st2 out2].
Qed.

Lemma wf_registered_truthy st roomID a :
  wf st → reg_lookup roomID (rooms st) = Some a → roomID ≠ EmptyString.
Proof.
  intros [Hk _ _] H%reg_lookup_elem. rewrite Forall_forall in Hk.
  exact (Hk _ H).
Qed.

(** C4. In every reachable state, a join-room whose display name is that
    of a player already in the room under a different stable id emits
    name-taken to the requesting connection and nothing else, and leaves
    every room (players, turn, dice, started flag, chat), the registry and
    the pending eviction tasks as they were. *)
Theorem name_taken_rejects
    (st : State) (sid roomID : string) (c : Player.t) (r : Room) :
  reachable st →
  room_at st roomID = Some r →
  (∃ p, p ∈ players r ∧ Player.name p = Player.name c ∧
        Player.id p ≠ Player.id c) →
  (handle (JoinRoom sid roomID (Some c)) st).2 =
    [ToSocket sid "name-taken" ArgTrue] ∧
  heap (handle (JoinRoom sid roomID (Some c)) st).1 = heap st ∧
  rooms (handle (JoinRoom sid roomID (Some c)) st).1 = rooms st ∧
  timers (handle (JoinRoom sid roomID (Some c)) st).1 = timers st ∧
  ∀ k, room_at (handle (JoinRoom sid roomID (Some c)) st).1 k = room_at st k.
Proof.
  intros Hreach Hr (p & Hp & Hname & Hid).
  assert (Hne : roomID ≠ EmptyString).
  { apply room_at_Some in Hr as [a [Hk _]%room_ref_Some].
    eapply wf_registered_truthy; [by apply reachable_wf | done]. }
  change (handle (JoinRoom sid roomID (Some c)) st)
    with (join_room sid roomID (Some c) st).
  rewrite (join_room_rejected st sid roomID c r); [done..|].
  apply Exists_exists. exists p. by repeat split.
Qed.

Lemma join_room_outputs sid roomID player st :
  (join_room sid roomID player st).2 = [] ∨
  (join_room sid roomID player st).2 = [ToSocket sid "name-taken" ArgTrue] ∨
  ∃ c, player = Some c ∧
    (join_room sid roomID player st).2 =
      join_broadcast roomID
        (admit_player sid roomID c
           (ensure_room roomID (socket_join sid roomID st)).2).
Proof.
  unfold join_room. destruct player as [c|]; [|by left].
  destruct (decide (roomID = EmptyString)); [by left|].
  destruct (_ ≫= _); [by right; left|]. right; right. exists c.
  split; [done|]. by destruct (ensure_room _ _) as [[st1 a] r1].
Qed.

Lemma wf_room_turn st roomID r :
  wf st → room_at st roomID = Some r →
  currentTurn r = 0%Z ∧ dice r = (-1, -1)%Z.
Proof.
  intros [_ _ Ht] [a [_ Hr]%room_ref_Some]%room_at_Some.
  by eapply Forall_lookup_1 in Ht.
Qed.

Lemma wf_ensure_room_turn st roomID :
  wf st →
  currentTurn (ensure_room roomID st).2 = 0%Z ∧
  dice (ensure_room roomID st).2 = (-1, -1)%Z.
Proof.
  intros Hwf. destruct (room_ref st roomID) as [[a r]|] eqn:E.
  - rewrite (ensure_room_existing _ _ _ _ E). simpl.
    eapply wf_room_turn; [done|]. apply room_at_Some. eauto.
  - by rewrite (ensure_room_new _ _ E).
Qed.

(** C9. update-turn and update-dice return the server state as it was and
    only forward the payload as received; in every reachable state a room
    has turn 0 and dice (-1,-1), and so whatever a join-room broadcasts to
    the room as turn and dice are these initial values. *)
Theorem turn_and_dice_never_stored
    (st : State) (sid roomID : string) (msg : payload) :
  handle (UpdateTurn sid roomID msg) st =
    (st, [ToRoom roomID "update-turn" (ArgRaw msg)]) ∧
  handle (UpdateDice sid roomID msg) st =
    (st, [ToRoom roomID "update-dice" (ArgRaw msg)]) ∧
  (reachable st →
   (∀ r, room_at st roomID = Some r →
         currentTurn r = 0%Z ∧ dice r = (-1, -1)%Z) ∧
   (∀ sid' player ev a,
      ToRoom roomID ev a ∈ (handle (JoinRoom sid' roomID player) st).2 →
      (ev = "joined-room" →
         ∃ r, a = ArgState r ∧ currentTurn r = 0%Z ∧ dice r = (-1, -1)%Z) ∧
      (ev = "update-turn" → a = ArgTurn 0%Z) ∧
      (ev = "update-dice" → a = ArgDice (-1, -1)%Z))).
Proof.
  split; [done|]. split; [done|]. intros Hwf%reachable_wf. split.
  - intros r Hr. by eapply wf_room_turn.
  - intros sid' player ev a.
    change (handle (JoinRoom sid' roomID player) st)
      with (join_room sid' roomID player st).
    destruct (join_room_outputs sid' roomID player st)
      as [->|[->|(c & -> & ->)]].
    + by intros ?%elem_of_nil.
    + intros H%list_elem_of_singleton. done.
    + pose proof (wf_ensure_room_turn (socket_join sid' roomID st) roomID) as Ht.
      destruct (admit_player_turn sid' roomID c
                  (ensure_room roomID (socket_join sid' roomID st)).2) as [Hc Hd].
      destruct Ht as [Ht1 Ht2]; [eapply wf_same; [| |exact Hwf]; done|].
      rewrite Ht1 in Hc. rewrite Ht2 in Hd.
      unfold join_broadcast. rewrite Hc, Hd.
      rewrite !elem_of_cons, elem_of_nil.
      intros [H|[H|[H|[H|[H|[]]]]]]; injection H as -> ->;
        repeat split; try done.
      intros _. eexists. by repeat split.
Qed.

(** ** Broadcast groups *)

Lemma subs_join_room sid roomID player st :
  subs st ⊆ subs (join_room sid roomID player st).1.
Proof.
  unfold join_room. destruct player as [c|]; [|done].
  destruct (decide (roomID = EmptyString)); [done|].
  destruct (_ ≫= _); [simpl; set_solver|].
  destruct (room_ref (socket_join sid roomID st) roomID) as [[a r]|] eqn:E.
  - rewrite (ensure_room_existing _ _ _ _ E). simpl. set_solver.
  - rewrite (ensure_room_new _ _ E). simpl. set_solver.
Qed.

Lemma subs_join_room_self sid roomID c st :
  roomID ≠ EmptyString →
  (sid, roomID) ∈ subs (join_room sid roomID (Some c) st).1.
Proof.
  intros Hne. unfold join_room. rewrite decide_False by done.
  destruct (_ ≫= _); [simpl; set_solver|].
  destruct (room_ref (socket_join sid roomID st) roomID) as [[a r]|] eqn:E.
  - rewrite (ensure_room_existing _ _ _ _ E). simpl. set_solver.
  - rewrite (ensure_room_new _ _ E). simpl. set_solver.
Qed.

Lemma subs_disconnect_scan sid keys st :
  subs (disconnect_scan sid keys st).1 = subs st.
Proof.
  induction keys as [|k keys IH]; simpl; [done|].
  destruct (room_ref st k) as [[a r]|]; [|done].
  by destruct (list_find _ (players r)) as [[i p]|].
Qed.

Lemma subs_evict t st : subs (evict t st).1 = subs st.
Proof.
  unfold evict. destruct (heap st !! tm_room t) as [room|]; [|done].
  destruct (list_find _ (players room)) as [[i p]|]; [|done].
  destruct (Player.is_disconnected p); [|done].
  destruct (_ =? _)%nat; by destruct (room_ref _ _) as [[a r]|].
Qed.

Lemma handle_keeps_sub e st sid roomID :
  e ≠ Disconnect sid →
  (sid, roomID) ∈ subs st → (sid, roomID) ∈ subs (handle e st).1.
Proof.
  intros He Hin. destruct e; simpl.
  - by apply subs_join_room.
  - unfold update_players. by repeat case_match.
  - done.
  - done.
  - unfold start_state. by repeat case_match.
  - unfold on_chat. by repeat case_match.
  - unfold on_disconnect. rewrite subs_disconnect_scan. simpl.
    apply elem_of_filter. split; [|done]. simpl. congruence.
  - destruct (timers st) as [|t ts]; [done|]. by rewrite subs_evict.
Qed.

Lemma trace_keeps_sub es st sid roomID :
  Disconnect sid ∉ es →
  (sid, roomID) ∈ subs st →
  ∀ st' out, (st', out) ∈ trace es st → (sid, roomID) ∈ subs st'.
Proof.
  revert st. induction es as [|e es IH]; intros st Hes Hin st' out; simpl.
  - by intros ?%elem_of_nil.
  - apply not_elem_of_cons in Hes as [He Hes].
    assert (Hin1 : (sid, roomID) ∈ subs (handle e st).1)
      by by apply handle_keeps_sub.
    intros [Heq|Hrest]%elem_of_cons.
    + by rewrite <- Heq in Hin1.
    + by eapply IH.
Qed.

(** C10. A join-room with a truthy room identifier and player claim
    subscribes the connection to the room's broadcast group whatever the
    outcome of the name check; a requester answered with name-taken stays
    subscribed, and for as long as it stays connected it receives every
    broadcast that later events send to the room. *)
Theorem rejected_join_stays_subscribed
    (st : State) (sid roomID : string) (c : Player.t) :
  roomID ≠ EmptyString →
  (sid, roomID) ∈ subs (handle (JoinRoom sid roomID (Some c)) st).1 ∧
  (∀ r, room_at st roomID = Some r →
        Exists (name_clash c) (players r) →
        (handle (JoinRoom sid roomID (Some c)) st).2 =
          [ToSocket sid "name-taken" ArgTrue] ∧
        ∀ es, Disconnect sid ∉ es →
          ∀ st' out ev a,
            (st', out) ∈ trace es (handle (JoinRoom sid roomID (Some c)) st).1 →
            ToRoom roomID ev a ∈ out →
            receives sid st' (ToRoom roomID ev a)).
Proof.
  intros Hne.
  assert (Hsub : (sid, roomID) ∈ subs (handle (JoinRoom sid roomID (Some c)) st).1)
    by by apply subs_join_room_self.
  split; [done|]. intros r Hr Hclash. split.
  - change (handle (JoinRoom sid roomID (Some c)) st)
      with (join_room sid roomID (Some c) st).
    by rewrite (join_room_rejected st sid roomID c r).
  - intros es Hes st' out ev a Htr _. simpl. by eapply trace_keeps_sub.
Qed.

(** ** Symbols *)














Lemma players_of_ensure_room st sid roomID :
  players (ensure_room roomID (socket_join sid roomID st)).2 =
    players_of st roomID.
Proof.
  unfold players_of, room_at.
  change (room_ref st roomID) with (room_ref (socket_join sid roomID st) roomID).
  destruct (room_ref (socket_join sid roomID st) roomID) as [[a r]|] eqn:E.
  - by rewrite (ensure_room_existing _ _ _ _ E).
  - by rewrite (ensure_room_new _ _ E).
Qed.



(** A claim under a stable id the room already holds changes no room. *)
Lemma join_known_player st sid roomID c :
  Player.id c ∈ Player.id <$> players_of st roomID →
  heap (join_room sid roomID (Some c) st).1 = heap st ∧
  rooms (join_room sid roomID (Some c) st).1 = rooms st ∧
  timers (join_room sid roomID (Some c) st).1 = timers st.
Proof.
  intros (p & Hp & Hin)%list_elem_of_fmap. unfold join_room.
  destruct (decide (roomID = EmptyString)); [done|].
  destruct (_ ≫= _); [done|].
  unfold players_of, room_at in Hin.
  change (room_ref st roomID) with (room_ref (socket_join sid roomID st) roomID) in Hin.
  destruct (room_ref (socket_join sid roomID st) roomID) as [[a r]|] eqn:E;
    [|by apply elem_of_nil in Hin].
  rewrite (ensure_room_existing _ _ _ _ E). simpl in Hin.
  unfold admit_player.
  destruct (list_find _ (players r)) as [[i q]|] eqn:F; simpl.
  - apply room_ref_Some in E as [_ E]. simpl in E.
    by rewrite list_insert_id.
  - apply list_find_None in F. rewrite Forall_forall in F.
    by destruct (F p Hin).
Qed.




(** ** The eviction task *)

(** When the task finds a player of its room object under its socket id
    and that player is marked disconnected, exactly that player is taken
    out of the sequence, and the registry entry is deleted when the
    sequence is left empty. *)
Lemma evict_removes t st room i p :
  heap st !! tm_room t = Some room →
  list_find (λ p, Player.socketID p = tm_socket t) (players room) = Some (i, p) →
  Player.is_disconnected p = true →
  (∃ r, heap (evict t st).1 !! tm_room t = Some r ∧
        players r = delete i (players room)) ∧
  (delete i (players room) = [] →
   reg_lookup (tm_roomID t) (rooms (evict t st).1) = None).
Proof.
  intros Hroom Hfind Hdis. unfold evict. rewrite Hroom, Hfind, Hdis.
  set (ps := delete i (players room)).
  set (st1 := store (tm_room t) (set_players ps room) st).
  assert (H1 : heap st1 !! tm_room t = Some (set_players ps room)).
  { simpl. apply list_lookup_insert_eq. by eapply lookup_lt_Some. }
  set (st2 := if (length ps =? 0)%nat
              then set_rooms (reg_delete (tm_roomID t) (rooms st1)) st1
              else st1).
  assert (H2 : heap st2 = heap st1) by (unfold st2; by destruct (_ =? _)%nat).
  destruct (room_ref st2 (tm_roomID t)) as [[a r]|] eqn:E; simpl; split.
  - apply room_ref_Some in E as [_ E]. rewrite H2 in *.
    destruct (decide (a = tm_room t)) as [->|Hne].
    + rewrite list_lookup_insert_eq by by eapply lookup_lt_Some.
      rewrite H1 in E. injection E as <-. by eexists.
    + rewrite list_lookup_insert_ne by done. by eexists.
  - intros Hnil. apply room_ref_Some in E as [E _].
    unfold st2 in E. rewrite Hnil in E. simpl in E.
    by rewrite reg_lookup_delete_eq in E.
  - rewrite H2. by eexists.
  - intros Hnil. unfold st2. rewrite Hnil. simpl. apply reg_lookup_delete_eq.
Qed.

(** C1, at the failing input. Bob (stable id 2) is marked disconnected and
    rejoins under the same stable id before the task fires; when the task
    fires he is removed all the same. *)
Theorem rejoin_does_not_stop_eviction :
  Player.id <$> players_of bob_dropped "ABC123" = ["1"; "2"] ∧
  Player.is_disconnected <$> players_of bob_dropped "ABC123" = [false; true] ∧
  length (timers bob_dropped) = 1 ∧
  Player.id <$> players_of bob_rejoined "ABC123" = ["1"; "2"] ∧
  Player.id <$> players_of (handle TimerFire bob_rejoined).1 "ABC123" = ["1"].
Proof. by vm_compute. Qed.

(** C2, at the failing input. After Bob rejoins from connection s3 the
    player sequence has its length, but the stored record of stable id 2
    still holds the connection s2 and is still marked disconnected. *)
Theorem rejoin_leaves_record_stale :
  players_of bob_rejoined "ABC123" = players_of bob_dropped "ABC123" ∧
  Player.id <$> players_of bob_rejoined "ABC123" = ["1"; "2"] ∧
  Player.socketID <$> players_of bob_rejoined "ABC123" = ["s1"; "s2"] ∧
  Player.disconnected <$> players_of bob_rejoined "ABC123" = [None; Some true].
Proof. by vm_compute. Qed.


(** C5 fails for update-turn: ABC123 is not in the registry, yet the
    event is broadcast to the group of ABC123, and connection s2, still
    subscribed to it, receives it. *)
Lemma update_turn_unknown_room_broadcasts :
  reg_lookup "ABC123" (rooms room_gone) = None ∧
  (handle (UpdateTurn "s2" "ABC123" (Json (JsNum 3))) room_gone).2 =
    [ToRoom "ABC123" "update-turn" (ArgRaw (Json (JsNum 3)))] ∧
  (handle (UpdateTurn "s2" "ABC123" (Json (JsNum 3))) room_gone).2 ≠ [] ∧
  receives "s2" (handle (UpdateTurn "s2" "ABC123" (Json (JsNum 3))) room_gone).1
    (ToRoom "ABC123" "update-turn" (ArgRaw (Json (JsNum 3)))).
Proof.
  split; [by vm_compute|]. split; [done|]. split; [done|].
  simpl. apply (bool_decide_unpack _). by vm_compute.
Qed.

(** ** The theorems at concrete inputs *)

Lemma alice_alone_reachable : reachable alice_alone.
Proof. apply reachable_run, reach_init. Qed.

Lemma alice_alone_room : room_at alice_alone "ABC123" = Some alice_room.
Proof. by vm_compute. Qed.


Lemma name_taken_rejects_witness :
  reachable alice_alone ∧
  room_at alice_alone "ABC123" = Some alice_room ∧
  (handle (JoinRoom "s2" "ABC123" (Some (claim "2" "Alice"))) alice_alone).2 =
    [ToSocket "s2" "name-taken" ArgTrue] ∧
  rooms (handle (JoinRoom "s2" "ABC123" (Some (claim "2" "Alice"))) alice_alone).1 =
    rooms alice_alone ∧
  room_at (handle (JoinRoom "s2" "ABC123" (Some (claim "2" "Alice"))) alice_alone).1
    "ABC123" = Some alice_room.
Proof.
  destruct (name_taken_rejects alice_alone "s2" "ABC123" (claim "2" "Alice")
              alice_room alice_alone_reachable alice_alone_room)
    as (Hout & _ & Hrooms & _ & Hat).
  { exists (Player.mk 0%Z "Alice" "🐇" 1000%Z [] 0%Z "1" "s1" (Some "ABC123") None).
    split; [apply list_elem_of_here|]. split; [reflexivity|discriminate]. }
  split; [exact alice_alone_reachable|]. split; [exact alice_alone_room|].
  split; [exact Hout|]. split; [exact Hrooms|].
  rewrite Hat. exact alice_alone_room.
Defined.

Lemma unknown_room_events_witness :
  reg_lookup "XYZ" (rooms alice_alone) = None ∧
  inherited_name "XYZ" = false ∧
  handle (UpdatePlayers "s1" "XYZ" (Json (JsArray []))) alice_alone =
    (alice_alone, []) ∧
  handle (Chat "s1" "XYZ" (JsStr "hi")) alice_alone = (alice_alone, []) ∧
  handle (UpdateTurn "s1" "XYZ" (Json (JsArray []))) alice_alone =
    (alice_alone, [ToRoom "XYZ" "update-turn" (ArgRaw (Json (JsArray [])))]).
Proof.
  assert (Hk : reg_lookup "XYZ" (rooms alice_alone) = None) by by vm_compute.
  assert (Hn : inherited_name "XYZ" = false) by by vm_compute.
  destruct (unknown_room_events alice_alone "s1" "XYZ" (Json (JsArray []))
              (JsStr "hi") Hk) as (Hquiet & Ht & _).
  destruct (Hquiet Hn) as (Hp & _ & Hc).
  split; [exact Hk|]. split; [exact Hn|].
  split; [exact Hp|]. split; [exact Hc|exact Ht].
Defined.

Lemma update_players_and_start_state_witness :
  room_at alice_alone "ABC123" = Some alice_room ∧
  handle (UpdatePlayers "s1" "ABC123" (Garbage "{oops")) alice_alone =
    (alice_alone, []) ∧
  handle (StartState "s1" "ABC123" (Garbage "{oops")) alice_alone =
    (alice_alone, []) ∧
  (∃ a, handle (UpdatePlayers "s1" "ABC123" (Json (JsArray [bob]))) alice_alone =
          (store a (set_players [bob] alice_room) alice_alone,
           [ToRoom "ABC123" "update-players" (ArgPlayers [bob])])) ∧
  (∃ a, handle (StartState "s1" "ABC123" (Json (JsBool true))) alice_alone =
          (store a (set_started true alice_room) alice_alone,
           [ToRoom "ABC123" "start-state" (ArgRaw (Json (JsBool true)))])).
Proof.
  destruct (update_players_and_start_state alice_alone "s1" "ABC123"
              (Garbage "{oops") alice_room alice_alone_room) as (Hp & Hs & _ & _).
  destruct (update_players_and_start_state alice_alone "s1" "ABC123"
              (Json (JsArray [bob])) alice_room alice_alone_room) as (_ & _ & Hps & _).
  destruct (update_players_and_start_state alice_alone "s1" "ABC123"
              (Json (JsBool true)) alice_room alice_alone_room) as (_ & _ & _ & Hb).
  split; [exact alice_alone_room|].
  split; [apply Hp; left; reflexivity|].
  split; [apply Hs; left; reflexivity|].
  split.
  - destruct (Hps [bob] eq_refl) as (a & _ & H & _). exists a. exact H.
  - destruct (Hb true eq_refl) as (a & _ & H & _). exists a. exact H.
Defined.

Lemma chat_length_rule_witness :
  room_at alice_alone "ABC123" = Some alice_room ∧
  handle (Chat "s1" "ABC123" (JsNum 7)) alice_alone = (alice_alone, []) ∧
  ∃ a, handle (Chat "s1" "ABC123" (JsStr "hi")) alice_alone =
         (store a (push_chat "hi" alice_room) alice_alone,
          [ToRoom "ABC123" "chat" (ArgChat ["hi"])]).
Proof.
  destruct (chat_length_rule alice_alone "s1" "ABC123" (JsNum 7) alice_room
              alice_alone_room) as (Hno & _).
  destruct (chat_length_rule alice_alone "s1" "ABC123" (JsStr "hi") alice_room
              alice_alone_room) as (_ & Hyes).
  split; [exact alice_alone_room|]. split.
  - apply Hno. intros s Hs. discriminate Hs.
  - destruct (Hyes "hi" eq_refl) as (a & _ & H & _); [simpl; lia|].
    exists a. exact H.
Defined.

Lemma join_unknown_room_creates_witness :
  "ABC123" ≠ EmptyString ∧
  inherited_name "ABC123" = false ∧
  reg_lookup "ABC123" (rooms init) = None ∧
  room_at (ensure_room "ABC123" (socket_join "s1" "ABC123" init)).1.1 "ABC123" =
    Some (mkRoom [] 0%Z (-1, -1)%Z false []) ∧
  room_at (handle (JoinRoom "s1" "ABC123" (Some alice)) init).1 "ABC123" =
    Some alice_room.
Proof.
  assert (Hne : "ABC123" ≠ EmptyString) by discriminate.
  assert (Hn : inherited_name "ABC123" = false) by by vm_compute.
  destruct (join_unknown_room_creates init "s1" "ABC123" alice Hne Hn eq_refl)
    as (Hnew & _ & Hat & _).
  split; [exact Hne|]. split; [exact Hn|]. split; [reflexivity|].
  split; [exact Hnew|exact Hat].
Defined.

Lemma turn_and_dice_never_stored_witness :
  reachable bob_dropped ∧
  handle (UpdateTurn "s1" "ABC123" (Json (JsNum 1))) bob_dropped =
    (bob_dropped, [ToRoom "ABC123" "update-turn" (ArgRaw (Json (JsNum 1)))]) ∧
  (∀ r, room_at bob_dropped "ABC123" = Some r →
        currentTurn r = 0%Z ∧ dice r = (-1, -1)%Z).
Proof.
  assert (Hreach : reachable bob_dropped) by apply reachable_run, reach_init.
  destruct (turn_and_dice_never_stored bob_dropped "s1" "ABC123" (Json (JsNum 1)))
    as (Ht & _ & Hrest).
  split; [exact Hreach|]. split; [exact Ht|]. exact (proj1 (Hrest Hreach)).
Defined.

Lemma rejected_join_stays_subscribed_witness :
  "ABC123" ≠ EmptyString ∧
  room_at alice_alone "ABC123" = Some alice_room ∧
  Exists (name_clash (claim "2" "Alice")) (players alice_room) ∧
  (handle (JoinRoom "s2" "ABC123" (Some (claim "2" "Alice"))) alice_alone).2 =
    [ToSocket "s2" "name-taken" ArgTrue] ∧
  ("s2", "ABC123") ∈
    subs (handle (JoinRoom "s2" "ABC123" (Some (claim "2" "Alice"))) alice_alone).1.
Proof.
  assert (Hne : "ABC123" ≠ EmptyString) by discriminate.
  assert (Hclash : Exists (name_clash (claim "2" "Alice")) (players alice_room)).
  { apply Exists_cons_hd. split; [reflexivity|discriminate]. }
  destruct (rejected_join_stays_subscribed alice_alone "s2" "ABC123"
              (claim "2" "Alice") Hne) as (Hsub & Hrej).
  destruct (Hrej alice_room alice_alone_room Hclash) as (Hout & _).
  split; [exact Hne|]. split; [exact alice_alone_room|]. split; [exact Hclash|].
  split; [exact Hout|exact Hsub].
Defined.

(** ** Frame properties of the handlers *)

Lemma timers_join_room sid roomID player st :
  timers (join_room sid roomID player st).1 = timers st.
Proof.
  unfold join_room. destruct player as [c|]; [|done].
  destruct (decide (roomID = EmptyString)); [done|].
  destruct (_ ≫= _); [done|].
  destruct (room_ref (socket_join sid roomID st) roomID) as [[a r]|] eqn:E.
  - by rewrite (ensure_room_existing _ _ _ _ E).
  - by rewrite (ensure_room_new _ _ E).
Qed.

Lemma timers_evict t st : timers (evict t st).1 = timers st.
Proof.
  unfold evict. destruct (heap st !! tm_room t) as [room|]; [|done].
  destruct (list_find _ (players room)) as [[i p]|]; [|done].
  destruct (Player.is_disconnected p); [|done].
  destruct (_ =? _)%nat; by destruct (room_ref _ _) as [[a r]|].
Qed.

Lemma timers_disconnect_scan sid keys st :
  timers (disconnect_scan sid keys st).1 = timers st ∨
  ∃ t, timers (disconnect_scan sid keys st).1 = timers st ++ [t] ∧
       tm_socket t = sid.
Proof.
  induction keys as [|k keys IH]; simpl; [by left|].
  destruct (room_ref st k) as [[a r]|]; [|done].
  destruct (list_find _ (players r)) as [[i p]|]; [|done].
  right. by eexists.
Qed.

(** X1. The server never cancels an eviction task: only a disconnect adds
    to the pending tasks, at most one and for the socket that dropped,
    only the firing of the oldest task removes one, and every other event
    leaves them as they are. *)
Theorem timers_never_cancelled (e : Event) (st : State) :
  match e with
  | TimerFire => timers (handle e st).1 = tail (timers st)
  | Disconnect sid =>
      timers (handle e st).1 = timers st ∨
      ∃ t, timers (handle e st).1 = timers st ++ [t] ∧ tm_socket t = sid
  | _ => timers (handle e st).1 = timers st
  end.
Proof.
  destruct e; simpl.
  - apply timers_join_room.
  - unfold update_players. by repeat case_match.
  - done.
  - done.
  - unfold start_state. by repeat case_match.
  - unfold on_chat. by repeat case_match.
  - apply (timers_disconnect_scan sid _ (leave_all sid st)).
  - destruct (timers st) as [|t ts] eqn:E; simpl; [done|].
    by rewrite timers_evict.
Qed.

Lemma rooms_disconnect_scan sid keys st :
  rooms (disconnect_scan sid keys st).1 = rooms st.
Proof.
  induction keys as [|k keys IH]; simpl; [done|].
  destruct (room_ref st k) as [[a r]|]; [|done].
  by destruct (list_find _ (players r)) as [[i p]|].
Qed.

Lemma rooms_evict t st :
  rooms (evict t st).1 = rooms st ∨
  (rooms (evict t st).1 = reg_delete (tm_roomID t) (rooms st) ∧
   ∃ room i, heap st !! tm_room t = Some room ∧
             delete i (players room) = []).
Proof.
  unfold evict. destruct (heap st !! tm_room t) as [room|]; [|by left].
  destruct (list_find _ (players room)) as [[i p]|]; [|by left].
  destruct (Player.is_disconnected p); [|by left].
  destruct (length (delete i (players room)) =? 0)%nat eqn:E.
  - right. apply Nat.eqb_eq, nil_length_inv in E.
    split; [by destruct (room_ref _ _) as [[a r]|] | by exists room, i].
  - left. by destruct (room_ref _ _) as [[a r]|].
Qed.

(** X2. Rooms are registered by join-room only and unregistered by the
    eviction task only. A join-room either leaves the registry alone or,
    when its room is not there, adds its identifier with a new room
    object; a firing task either leaves the registry alone or deletes its
    own room identifier, and only after emptying its room object; every
    other event leaves the registry as it is. *)
Theorem registry_changes (e : Event) (st : State) :
  match e with
  | JoinRoom sid k player =>
      rooms (handle e st).1 = rooms st ∨
      (room_at st k = None ∧ k ≠ EmptyString ∧
       rooms (handle e st).1 = reg_set k (length (heap st)) (rooms st))
  | TimerFire =>
      rooms (handle e st).1 = rooms st ∨
      ∃ t ts room i, timers st = t :: ts ∧
        heap st !! tm_room t = Some room ∧ delete i (players room) = [] ∧
        rooms (handle e st).1 = reg_delete (tm_roomID t) (rooms st)
  | _ => rooms (handle e st).1 = rooms st
  end.
Proof.
  destruct e; simpl.
  - unfold join_room. destruct player as [c|]; [|by left].
    destruct (decide (roomID = EmptyString)); [by left|].
    destruct (_ ≫= _); [by left|].
    destruct (room_ref (socket_join sid roomID st) roomID) as [[a r]|] eqn:E.
    + left. by rewrite (ensure_room_existing _ _ _ _ E).
    + right. rewrite (ensure_room_new _ _ E). split; [|done].
      unfold room_at.
      change (room_ref st roomID) with (room_ref (socket_join sid roomID st) roomID).
      by rewrite E.
  - unfold update_players. by repeat case_match.
  - done.
  - done.
  - unfold start_state. by repeat case_match.
  - unfold on_chat. by repeat case_match.
  - apply (rooms_disconnect_scan sid _ (leave_all sid st)).
  - destruct (timers st) as [|t ts]; [by left|].
    destruct (rooms_evict t (set_timers ts st)) as [H|(H & room & i & Hr & Hd)].
    + by left.
    + right. by exists t, ts, room, i.
Qed.

Lemma store_frame a a' r r' st :
  heap st !! a' = Some r' → a ≠ a' → heap (store a r st) !! a' = Some r'.
Proof. intros H Hne. simpl. by rewrite list_lookup_insert_ne. Qed.

Lemma join_room_frame sid roomID player st a r :
  heap st !! a = Some r →
  reg_lookup roomID (rooms st) ≠ Some a →
  heap (join_room sid roomID player st).1 !! a = Some r.
Proof.
  intros Ha Hk. unfold join_room. destruct player as [c|]; [|done].
  destruct (decide (roomID = EmptyString)); [done|].
  destruct (_ ≫= _); [done|].
  destruct (room_ref (socket_join sid roomID st) roomID) as [[a0 r0]|] eqn:E.
  - rewrite (ensure_room_existing _ _ _ _ E). simpl.
    apply room_ref_Some in E as [E _]. simpl in E.
    rewrite list_lookup_insert_ne; [done|]. congruence.
  - rewrite (ensure_room_new _ _ E). simpl.
    rewrite list_lookup_insert_ne.
    + by apply lookup_app_l_Some.
    + apply lookup_lt_Some in Ha. lia.
Qed.

Lemma join_room_targets sid roomID player st x :
  x ∈ (join_room sid roomID player st).2 →
  (∃ ev arg, x = ToRoom roomID ev arg) ∨ x = ToSocket sid "name-taken" ArgTrue.
Proof.
  destruct (join_room_outputs sid roomID player st) as [->|[->|(c & _ & ->)]].
  - by intros ?%elem_of_nil.
  - intros ->%list_elem_of_singleton. by right.
  - unfold join_broadcast. rewrite !elem_of_cons, elem_of_nil.
    intros [->|[->|[->|[->|[->|[]]]]]]; left; by do 2 eexists.
Qed.

Lemma handle_frame (e : Event) (k : string) (st : State) a r :
  event_room e = Some k →
  heap st !! a = Some r →
  reg_lookup k (rooms st) ≠ Some a →
  heap (handle e st).1 !! a = Some r.
Proof.
  intros He Ha Hk. destruct e; simpl in He; try done; injection He as ->; simpl.
  - by apply join_room_frame.
  - unfold update_players. destruct (negb _); [done|].
    destruct (room_ref st k) as [[a0 r0]|] eqn:E; [|done].
    destruct (JSON_parse msg) as [[]|]; try done. simpl.
    apply room_ref_Some in E as [E _].
    rewrite list_lookup_insert_ne; [done|]. congruence.
  - unfold start_state. destruct (negb _); [done|].
    destruct (room_ref st k) as [[a0 r0]|] eqn:E; [|done].
    destruct (JSON_parse msg) as [[]|]; try done. simpl.
    apply room_ref_Some in E as [E _].
    rewrite list_lookup_insert_ne; [done|]. congruence.
  - unfold on_chat.
    destruct (room_ref st k) as [[a0 r0]|] eqn:E; [|done].
    destruct msg; try done. destruct (_ <? _); [done|]. simpl.
    apply room_ref_Some in E as [E _].
    rewrite list_lookup_insert_ne; [done|]. congruence.
Qed.

(** X3. An event that names a room touches no other room object: every
    room object except the one registered under the named identifier is
    left as it is, and whatever is emitted goes to the group of the named
    identifier, or, for the name-taken answer of a join-room, to the
    requesting connection. *)
Theorem room_isolation (e : Event) (k : string) (st : State) :
  event_room e = Some k →
  (∀ a r, heap st !! a = Some r →
          reg_lookup k (rooms st) ≠ Some a →
          heap (handle e st).1 !! a = Some r) ∧
  (∀ x, x ∈ (handle e st).2 →
        (∃ ev arg, x = ToRoom k ev arg) ∨
        (∃ sid player, e = JoinRoom sid k player ∧
                       x = ToSocket sid "name-taken" ArgTrue)).
Proof.
  intros He. split; [intros a r; by apply handle_frame|].
  destruct e; simpl in He; try done; injection He as ->; simpl.
  - intros x [H| ->]%join_room_targets; [by left|]. right. by do 2 eexists.
  - intros x. unfold update_players. repeat case_match;
      try by intros ?%elem_of_nil.
    intros ->%list_elem_of_singleton. left. by do 2 eexists.
  - intros x ->%list_elem_of_singleton. left. by do 2 eexists.
  - intros x ->%list_elem_of_singleton. left. by do 2 eexists.
  - intros x. unfold start_state. repeat case_match;
      try by intros ?%elem_of_nil.
    intros ->%list_elem_of_singleton. left. by do 2 eexists.
  - intros x. unfold on_chat. repeat case_match;
      try by intros ?%elem_of_nil.
    intros ->%list_elem_of_singleton. left. by do 2 eexists.
Qed.

(** ** The order of the disconnect loop *)

Lemma insert_index_perm x l : insert_index x l ≡ₚ x :: l.
Proof.
  induction l as [|y l IH]; simpl; [done|].
  destruct (x.1 <? y.1)%N; [done|]. rewrite IH. apply Permutation_swap.
Qed.

Lemma index_keys_perm ks :
  (index_keys ks).*2 ≡ₚ filter (λ k, ¬ array_index k = None) ks.
Proof.
  unfold index_keys. induction ks as [|k ks IH]; simpl; [done|].
  rewrite filter_cons.
  destruct (decide (¬ array_index k = None)) as [Hk|Hk];
    destruct (array_index k) as [n|] eqn:E; simpl; try done.
  - rewrite insert_index_perm. simpl. by rewrite IH.
  - by destruct Hk.
Qed.

Lemma for_in_keys_perm reg : for_in_keys reg ≡ₚ reg.*1.
Proof.
  unfold for_in_keys. rewrite index_keys_perm.
  rewrite Permutation_app_comm. apply filter_app_complement.
Qed.

Lemma registered_in_for_in_keys k a reg :
  reg_lookup k reg = Some a → k ∈ for_in_keys reg.
Proof.
  intros H%reg_lookup_elem. rewrite for_in_keys_perm.
  apply list_elem_of_fmap. by exists (k, a).
Qed.

(** ** Room objects along a step *)

Section heap_le.
Context (R : Room → Room → Prop).
Hypothesis R_refl : ∀ r, R r r.
Hypothesis R_trans : ∀ r1 r2 r3, R r1 r2 → R r2 r3 → R r1 r3.

Lemma heap_le_refl h : heap_le R h h.
Proof. intros a r Ha. eauto. Qed.

Lemma heap_le_trans h1 h2 h3 :
  heap_le R h1 h2 → heap_le R h2 h3 → heap_le R h1 h3.
Proof.
  intros H12 H23 a r Ha. destruct (H12 a r Ha) as (r2 & Ha2 & Hr2).
  destruct (H23 a r2 Ha2) as (r3 & Ha3 & Hr3). eauto.
Qed.

Lemma heap_le_insert h a0 r0 r1 :
  h !! a0 = Some r0 → R r0 r1 → heap_le R h (<[a0 := r1]> h).
Proof.
  intros H0 HR a r Ha. destruct (decide (a0 = a)) as [->|Hne].
  - rewrite list_lookup_insert_eq by by eapply lookup_lt_Some.
    exists r1. split; [done|]. congruence.
  - rewrite list_lookup_insert_ne by done. eauto.
Qed.

Lemma heap_le_app h l : heap_le R h (h ++ l).
Proof. intros a r Ha. exists r. split; [by apply lookup_app_l_Some | done]. Qed.

Lemma heap_le_join_room sid roomID player st :
  (∀ c r, R r (admit_player sid roomID c r)) →
  heap_le R (heap st) (heap (join_room sid roomID player st).1).
Proof.
  intros Hadm. unfold join_room. destruct player as [c|]; [|apply heap_le_refl].
  destruct (decide (roomID = EmptyString)); [apply heap_le_refl|].
  destruct (_ ≫= _); [apply heap_le_refl|].
  pose proof (ensure_room_ref (socket_join sid roomID st) roomID) as Href.
  destruct (room_ref (socket_join sid roomID st) roomID) as [[a r]|] eqn:E.
  - rewrite (ensure_room_existing _ _ _ _ E) in *. simpl.
    apply room_ref_Some in E as [_ E]. by eapply heap_le_insert.
  - rewrite (ensure_room_new _ _ E) in *. simpl.
    eapply heap_le_trans; [apply (heap_le_app _ [emptyRoom])|].
    eapply heap_le_insert; [|apply Hadm].
    by rewrite lookup_app_r, Nat.sub_diag.
Qed.

Lemma heap_le_disconnect_scan sid keys st :
  (∀ r m i p, players r !! i = Some p →
     R r (set_players (<[i := Player.set_disconnected true p]> (players r))
            (push_chat m r))) →
  heap_le R (heap st) (heap (disconnect_scan sid keys st).1).
Proof.
  intros Hmark. induction keys as [|k keys IH]; simpl; [apply heap_le_refl|].
  destruct (room_ref st k) as [[a r]|] eqn:E; [|done].
  destruct (list_find _ (players r)) as [[i p]|] eqn:F; [|done]. simpl.
  apply room_ref_Some in E as [_ E]. apply list_find_Some in F as (F & _ & _).
  eapply heap_le_insert; [done|]. by apply Hmark.
Qed.

Lemma heap_le_evict t st :
  (∀ r i, R r (set_players (delete i (players r)) r)) →
  (∀ r m, R r (push_chat m r)) →
  heap_le R (heap st) (heap (evict t st).1).
Proof.
  intros Hdel Hpush. unfold evict.
  destruct (heap st !! tm_room t) as [room|] eqn:E; [|apply heap_le_refl].
  destruct (list_find _ (players room)) as [[i p]|]; [|apply heap_le_refl].
  destruct (Player.is_disconnected p); [|apply heap_le_refl].
  set (st1 := store (tm_room t) (set_players (delete i (players room)) room) st).
  assert (H1 : heap_le R (heap st) (heap st1)) by by eapply heap_le_insert.
  set (st2 := if (length (delete i (players room)) =? 0)%nat
              then set_rooms (reg_delete (tm_roomID t) (rooms st1)) st1
              else st1).
  assert (H2 : heap st2 = heap st1) by (unfold st2; by destruct (_ =? _)%nat).
  destruct (room_ref st2 (tm_roomID t)) as [[a r]|] eqn:E2; simpl.
  - apply room_ref_Some in E2 as [_ E2].
    eapply heap_le_trans; [exact H1|]. rewrite <- H2.
    by eapply heap_le_insert.
  - by rewrite H2.
Qed.

End heap_le.

Lemma chat_grows_refl r : chat_grows r r.
Proof. unfold chat_grows. reflexivity. Qed.

Lemma chat_grows_trans r1 r2 r3 :
  chat_grows r1 r2 → chat_grows r2 r3 → chat_grows r1 r3.
Proof. unfold chat_grows. intros ? ?. by etrans. Qed.

Local Ltac chat_step :=
  unfold chat_grows; simpl; first [reflexivity | by apply prefix_app_r].

(** X5. The chat log of a room is append-only: across any event, every
    room object is still there and its chat sequence extends the one it
    had; no handler ever drops or rewrites a chat line. *)
Theorem chat_append_only (e : Event) (st : State) :
  heap_le chat_grows (heap st) (heap (handle e st).1).
Proof.
  pose proof chat_grows_refl as Hrefl. pose proof chat_grows_trans as Htrans.
  destruct e; simpl.
  - apply heap_le_join_room; [done..|]. intros c r. unfold admit_player.
    destruct (list_find _ _); chat_step.
  - unfold update_players. destruct (negb _); [by apply heap_le_refl|].
    destruct (room_ref st roomID) as [[a r]|] eqn:E; [|by apply heap_le_refl].
    destruct (JSON_parse msg) as [[]|]; try by apply heap_le_refl.
    apply room_ref_Some in E as [_ E]. simpl.
    eapply heap_le_insert; [exact Hrefl|exact E|chat_step].
  - by apply heap_le_refl.
  - by apply heap_le_refl.
  - unfold start_state. destruct (negb _); [by apply heap_le_refl|].
    destruct (room_ref st roomID) as [[a r]|] eqn:E; [|by apply heap_le_refl].
    destruct (JSON_parse msg) as [[]|]; try by apply heap_le_refl.
    apply room_ref_Some in E as [_ E]. simpl.
    eapply heap_le_insert; [exact Hrefl|exact E|chat_step].
  - unfold on_chat.
    destruct (room_ref st roomID) as [[a r]|] eqn:E; [|by apply heap_le_refl].
    destruct msg; try by apply heap_le_refl.
    destruct (_ <? _); [by apply heap_le_refl|].
    apply room_ref_Some in E as [_ E]. simpl.
    eapply heap_le_insert; [exact Hrefl|exact E|chat_step].
  - apply (heap_le_disconnect_scan _ Hrefl sid _ (leave_all sid st)).
    intros r m i p _. chat_step.
  - destruct (timers st) as [|t ts]; [by apply heap_le_refl|].
    apply (heap_le_evict _ Hrefl Htrans t (set_timers ts st)).
    + intros r i. chat_step.
    + intros r m. chat_step.
Qed.

Lemma same_seats_refl r : same_seats r r.
Proof.
  repeat split; [|reflexivity]. apply Forall_Forall2_diag, Forall_forall.
  intros p _. by left.
Qed.

Lemma fmap_mark {B} (f : Player.t → B) (ps : list Player.t) i p :
  ps !! i = Some p →
  f (Player.set_disconnected true p) = f p →
  f <$> <[i := Player.set_disconnected true p]> ps = f <$> ps.
Proof.
  intros Hi Hf. rewrite list_fmap_insert, Hf.
  apply list_insert_id. by rewrite list_lookup_fmap, Hi.
Qed.

Lemma mark_one (ps : list Player.t) i p :
  ps !! i = Some p →
  Forall2 (λ p p', p' = p ∨ p' = Player.set_disconnected true p)
    ps (<[i := Player.set_disconnected true p]> ps).
Proof.
  intros Hi. apply Forall2_same_length_lookup. split; [by rewrite length_insert|].
  intros j x y Hx Hy. destruct (decide (i = j)) as [<-|Hne].
  - rewrite list_lookup_insert_eq in Hy by by eapply lookup_lt_Some.
    right. congruence.
  - rewrite list_lookup_insert_ne in Hy by done. left. congruence.
Qed.

(** X6. A disconnect removes nobody and rewrites nothing: the registry is
    unchanged, and every room object keeps its turn, dice and started
    flag and keeps each of its player records in place, either exactly as
    it was or with nothing but its disconnected flag set; its chat may
    only have grown. *)
Theorem disconnect_keeps_seats (sid : string) (st : State) :
  rooms (handle (Disconnect sid) st).1 = rooms st ∧
  heap_le same_seats (heap st) (heap (handle (Disconnect sid) st).1).
Proof.
  split; [apply (rooms_disconnect_scan sid _ (leave_all sid st))|].
  apply (heap_le_disconnect_scan _ same_seats_refl sid _ (leave_all sid st)).
  intros r m i p Hi. unfold same_seats. simpl.
  split; [by apply mark_one|]. repeat split. by apply prefix_app_r.
Qed.

Lemma disconnect_scan_one_seat sid keys st :
  length (heap (disconnect_scan sid keys st).1) = length (heap st) ∧
  ∃ a i, ∀ a' r, heap st !! a' = Some r →
    ∃ r', heap (disconnect_scan sid keys st).1 !! a' = Some r' ∧
          (a' ≠ a → r' = r) ∧
          ∀ j, j ≠ i → players r' !! j = players r !! j.
Proof.
  induction keys as [|k keys IH]; simpl.
  - split; [done|]. exists 0, 0. intros a' r Hr. by exists r.
  - destruct (room_ref st k) as [[a room]|] eqn:E; [|done].
    destruct (list_find _ (players room)) as [[i p]|] eqn:F; [|done]. simpl.
    split; [by rewrite length_insert|]. exists a, i. intros a' r Hr.
    apply room_ref_Some in E as [_ E].
    destruct (decide (a = a')) as [<-|Hne].
    + rewrite list_lookup_insert_eq by by eapply lookup_lt_Some.
      eexists. split; [done|]. split; [done|]. intros j Hj. simpl.
      rewrite list_lookup_insert_ne by done. congruence.
    + rewrite list_lookup_insert_ne by done. exists r. by repeat split.
Qed.

(** X4. The loop of the disconnect handler stops at the first seat it
    finds (the break of line 125): a disconnect creates no room object
    and changes at most one of them, and in that one at most one player
    record; a connection seated more than once has only one seat flagged
    and the others are left exactly as they were. *)
Theorem disconnect_flags_one_seat (sid : string) (st : State) :
  length (heap (handle (Disconnect sid) st).1) = length (heap st) ∧
  ∃ a i, ∀ a' r, heap st !! a' = Some r →
    ∃ r', heap (handle (Disconnect sid) st).1 !! a' = Some r' ∧
          (a' ≠ a → r' = r) ∧
          ∀ j, j ≠ i → players r' !! j = players r !! j.
Proof.
  apply (disconnect_scan_one_seat sid (for_in_keys (rooms st)) (leave_all sid st)).
Qed.

(** ** Disconnect *)

Lemma find_socket_None sid (ps : list Player.t) :
  Forall (λ p, Player.socketID p ≠ sid) ps →
  list_find (λ p, Player.socketID p = sid) ps = None.
Proof. intros H. by apply list_find_None. Qed.

Lemma find_socket_Some sid (ps : list Player.t) :
  Exists (λ p, Player.socketID p = sid) ps →
  ∃ i p, list_find (λ p, Player.socketID p = sid) ps = Some (i, p).
Proof.
  intros (q & Hq & Hs)%Exists_exists.
  destruct (list_find (λ p, Player.socketID p = sid) ps) as [[i p]|] eqn:E;
    [by eauto|].
  apply list_find_None in E. rewrite Forall_forall in E. by destruct (E q Hq).
Qed.

Lemma disconnect_scan_no_seat sid keys st :
  (∀ k r, k ∈ keys → room_at st k = Some r →
          Forall (λ p, Player.socketID p ≠ sid) (players r)) →
  disconnect_scan sid keys st = (st, []).
Proof.
  induction keys as [|k keys IH]; intros H; simpl; [done|].
  destruct (room_ref st k) as [[a r]|] eqn:E.
  - rewrite find_socket_None.
    + apply IH. intros k' r' Hk'. apply H. by right.
    + apply (H k r); [by left|]. apply room_at_Some. eauto.
  - apply IH. intros k' r' Hk'. apply H. by right.
Qed.

(** X7. When no registered room holds a player on the dropped connection
    (for instance a connection that was only ever answered name-taken),
    the disconnect schedules no task, emits nothing and changes no room:
    the connection just leaves its broadcast groups. *)
Theorem disconnect_without_seat (sid : string) (st : State) :
  (∀ k r, room_at st k = Some r →
          Forall (λ p, Player.socketID p ≠ sid) (players r)) →
  handle (Disconnect sid) st = (leave_all sid st, []).
Proof.
  intros H. simpl. unfold on_disconnect.
  apply disconnect_scan_no_seat. intros k r _. apply H.
Qed.

Lemma disconnect_scan_seat sid keys st k a room :
  k ∈ keys →
  room_ref st k = Some (a, room) →
  Exists (λ p, Player.socketID p = sid) (players room) →
  ∃ k' a' room' i p,
    room_ref st k' = Some (a', room') ∧
    list_find (λ p, Player.socketID p = sid) (players room') = Some (i, p) ∧
    disconnect_scan sid keys st =
      (set_timers (timers st ++ [mkTimer a' k' sid (Player.name p)])
         (store a'
            (mkRoom (<[i := Player.set_disconnected true p]> (players room'))
               (currentTurn room') (dice room') (started room')
               (chat room' ++
                  [Player.name p +:+ " disconnected. Waiting 60 seconds..."]))
            st),
       [ToRoom k' "chat"
          (ArgChat (chat room' ++
             [Player.name p +:+ " disconnected. Waiting 60 seconds..."]))]).
Proof.
  intros Hk Hr Hex. induction keys as [|k0 keys IH]; [by apply elem_of_nil in Hk|].
  simpl. destruct (room_ref st k0) as [[a0 r0]|] eqn:E0.
  - destruct (list_find _ (players r0)) as [[i p]|] eqn:F.
    + by exists k0, a0, r0, i, p.
    + apply elem_of_cons in Hk as [->|Hk]; [|by apply IH].
      rewrite Hr in E0. injection E0 as <- <-.
      destruct (find_socket_Some sid (players room) Hex) as (i & p & F').
      by rewrite F' in F.
  - apply elem_of_cons in Hk as [->|Hk]; [by rewrite Hr in E0 | by apply IH].
Qed.

(** X8. When some registered room holds a player on the dropped
    connection, the disconnect opens a grace period for exactly one seat:
    in one registered room, the first player with that connection id is
    flagged disconnected, the line "<name> disconnected. Waiting 60
    seconds..." is appended to that room's chat and the chat is broadcast
    to the room, and one eviction task for that room object, room
    identifier, connection and name is queued behind the pending ones. *)
Theorem disconnect_opens_grace_period
    (sid k : string) (st : State) (room : Room) :
  room_at st k = Some room →
  Exists (λ p, Player.socketID p = sid) (players room) →
  ∃ k' a room' i p,
    room_ref st k' = Some (a, room') ∧
    list_find (λ p, Player.socketID p = sid) (players room') = Some (i, p) ∧
    (handle (Disconnect sid) st).2 =
      [ToRoom k' "chat"
         (ArgChat (chat room' ++
            [Player.name p +:+ " disconnected. Waiting 60 seconds..."]))] ∧
    timers (handle (Disconnect sid) st).1 =
      timers st ++ [mkTimer a k' sid (Player.name p)] ∧
    heap (handle (Disconnect sid) st).1 !! a =
      Some (mkRoom (<[i := Player.set_disconnected true p]> (players room'))
              (currentTurn room') (dice room') (started room')
              (chat room' ++
                 [Player.name p +:+ " disconnected. Waiting 60 seconds..."])).
Proof.
  intros [a Hr]%room_at_Some Hex.
  destruct (disconnect_scan_seat sid (for_in_keys (rooms st)) (leave_all sid st)
              k a room) as (k' & a' & room' & i & p & Hr' & Hf & Hscan);
    [|exact Hr|exact Hex|].
  { apply room_ref_Some in Hr as [Hk _]. by eapply registered_in_for_in_keys. }
  exists k', a', room', i, p. simpl. unfold on_disconnect.
  change (rooms (leave_all sid st)) with (rooms st). rewrite Hscan. simpl.
  repeat split; [done..|].
  apply list_lookup_insert_eq. apply room_ref_Some in Hr' as [_ Hr'].
  by eapply lookup_lt_Some.
Qed.

(** ** Eviction *)

Lemma store_store a r1 r2 st : store a r2 (store a r1 st) = store a r2 st.
Proof. unfold store, set_heap. simpl. by rewrite list_insert_insert_eq. Qed.

(** X9. When the task fires for the room object registered under its room
    identifier and finds a flagged player on its connection: if other
    players remain, the room keeps them, its chat gains the line "<name>
    disconnected.", and the new player sequence and then the chat are
    broadcast to the room; if none remains, the room is unregistered and
    only the empty player sequence is broadcast. *)
Theorem evict_registered_room
    (t : Timer) (st : State) (room : Room) (i : nat) (p : Player.t) :
  room_ref st (tm_roomID t) = Some (tm_room t, room) →
  list_find (λ p, Player.socketID p = tm_socket t) (players room) = Some (i, p) →
  Player.is_disconnected p = true →
  (delete i (players room) ≠ [] →
   evict t st =
     (store (tm_room t)
        (mkRoom (delete i (players room)) (currentTurn room) (dice room)
           (started room) (chat room ++ [tm_name t +:+ " disconnected."])) st,
      [ToRoom (tm_roomID t) "update-players" (ArgPlayers (delete i (players room)));
       ToRoom (tm_roomID t) "chat"
         (ArgChat (chat room ++ [tm_name t +:+ " disconnected."]))])) ∧
  (delete i (players room) = [] →
   (evict t st).2 = [ToRoom (tm_roomID t) "update-players" (ArgPlayers [])] ∧
   room_at (evict t st).1 (tm_roomID t) = None ∧
   rooms (evict t st).1 = reg_delete (tm_roomID t) (rooms st)).
Proof.
  intros Href Hfind Hdis. pose proof Href as [Hk Hroom]%room_ref_Some.
  unfold evict. rewrite Hroom, Hfind, Hdis. split; intros Hps.
  - destruct (length (delete i (players room)) =? 0)%nat eqn:E.
    { apply Nat.eqb_eq, nil_length_inv in E. done. }
    erewrite room_ref_store by done. simpl. by rewrite store_store.
  - rewrite Hps. simpl.
    assert (Hnone : room_ref
      (set_rooms (reg_delete (tm_roomID t) (rooms st))
         (store (tm_room t) (set_players [] room) st)) (tm_roomID t) = None).
    { apply room_ref_None_unregistered. simpl. apply reg_lookup_delete_eq. }
    rewrite Hnone. simpl. repeat split. unfold room_at.
    change (room_ref _ (tm_roomID t)) with (room_ref
      (set_rooms (reg_delete (tm_roomID t) (rooms st))
         (store (tm_room t) (set_players [] room) st)) (tm_roomID t)).
    by rewrite Hnone.
Qed.

(** X10. The task re-checks the record when it fires. If, before it
    fires, a client's update-players replaced the player sequence of the
    room object the task holds by one in which no player has the dropped
    connection id, or the first such player is not flagged disconnected,
    the firing changes nothing and emits nothing. *)
Theorem overwrite_prevents_eviction
    (t : Timer) (ts : list Timer) (st : State) (sid roomID : string)
    (r : Room) (ps : list Player.t) :
  room_ref st roomID = Some (tm_room t, r) →
  timers st = t :: ts →
  (∀ i p, list_find (λ p, Player.socketID p = tm_socket t) ps = Some (i, p) →
          Player.is_disconnected p = false) →
  handle TimerFire (handle (UpdatePlayers sid roomID (Json (JsArray ps))) st).1 =
    (set_timers ts (store (tm_room t) (set_players ps r) st), []).
Proof.
  intros Href Hts Hok. pose proof Href as [Hk Hroom]%room_ref_Some.
  simpl. unfold update_players. simpl. rewrite Href. simpl. rewrite Hts.
  unfold evict. simpl.
  rewrite list_lookup_insert_eq by by eapply lookup_lt_Some. simpl.
  destruct (list_find _ ps) as [[i p]|] eqn:F; [|done].
  by rewrite (Hok i p).
Qed.

(** ** Joining a room that exists *)

Lemma admit_player_has_id sid roomID c r :
  Player.id c ∈ Player.id <$> players (admit_player sid roomID c r).
Proof.
  unfold admit_player.
  destruct (list_find _ (players r)) as [[i p]|] eqn:F; simpl.
  - apply list_find_Some in F as (Hi & Hp & _). simpl in Hp. rewrite <- Hp.
    apply list_elem_of_fmap_2. by eapply list_elem_of_lookup_2.
  - rewrite fmap_app. apply elem_of_app. right. by left.
Qed.



Lemma admit_player_distinct sid roomID c r :
  ¬ Exists (name_clash c) (players r) →
  distinct_players r → distinct_players (admit_player sid roomID c r).
Proof.
  intros Hc [Hids Hnames]. unfold admit_player.
  destruct (list_find _ (players r)) as [[i p]|] eqn:F; [done|].
  apply list_find_None in F. rewrite Forall_forall in F. simpl in F.
  split; simpl; rewrite fmap_app; apply NoDup_app;
    (split; [done|]); (split; [|apply NoDup_singleton]).
  - intros x (q & -> & Hq)%list_elem_of_fmap [Heq|[]%elem_of_nil]%elem_of_cons.
    by apply (F q Hq).
  - intros x (q & -> & Hq)%list_elem_of_fmap [Heq|[]%elem_of_nil]%elem_of_cons.
    apply Hc, Exists_exists. exists q. split; [done|]. split; [done|].
    intros Hid. by apply (F q Hq).
Qed.

Lemma distinct_players_mark r m i p :
  players r !! i = Some p →
  distinct_players r →
  distinct_players
    (set_players (<[i := Player.set_disconnected true p]> (players r))
       (push_chat m r)).
Proof.
  intros Hi [Hids Hnames]. unfold distinct_players. simpl.
  by rewrite !(fmap_mark _ _ _ _ Hi).
Qed.

Lemma distinct_players_delete r i :
  distinct_players r → distinct_players (set_players (delete i (players r)) r).
Proof.
  intros [Hids Hnames]. unfold distinct_players. simpl.
  rewrite !list_fmap_delete.
  split; (eapply sublist_NoDup; [|apply sublist_delete]; done).
Qed.

Lemma distinct_join_room sid roomID player st :
  Forall distinct_players (heap st) →
  Forall distinct_players (heap (join_room sid roomID player st).1).
Proof.
  intros H. destruct player as [c|]; [|done].
  destruct (decide (roomID = EmptyString)) as [->|Hne]; [done|].
  destruct (decide (Exists (name_clash c) (players_of st roomID))) as [Hex|Hc].
  - unfold players_of in Hex.
    destruct (room_at st roomID) as [r|] eqn:Hr; [|by apply Exists_nil in Hex].
    by rewrite (join_room_rejected st sid roomID c r).
  - rewrite join_room_accepted by done. simpl.
    pose proof (ensure_room_ref (socket_join sid roomID st) roomID) as Href.
    pose proof (players_of_ensure_room st sid roomID) as Hps.
    destruct (room_ref (socket_join sid roomID st) roomID) as [[a r]|] eqn:E.
    + rewrite (ensure_room_existing _ _ _ _ E) in *. simpl in *.
      apply room_ref_Some in E as [_ E]. simpl in E.
      apply Forall_insert; [done|]. apply admit_player_distinct.
      * by rewrite Hps.
      * by eapply Forall_lookup_1 in H.
    + rewrite (ensure_room_new _ _ E) in *. simpl in *.
      apply Forall_insert.
      * apply Forall_app. split; [done|]. repeat constructor.
      * apply admit_player_distinct; [simpl; by intros ?%Exists_nil|].
        split; constructor.
Qed.

Lemma distinct_disconnect_scan sid keys st :
  Forall distinct_players (heap st) →
  Forall distinct_players (heap (disconnect_scan sid keys st).1).
Proof.
  intros H. induction keys as [|k keys IH]; simpl; [done|].
  destruct (room_ref st k) as [[a r]|] eqn:E; [|done].
  destruct (list_find _ (players r)) as [[i p]|] eqn:F; [|done]. simpl.
  apply room_ref_Some in E as [_ E]. apply list_find_Some in F as (F & _ & _).
  apply Forall_insert; [done|]. apply (distinct_players_mark r _ i p F).
  by eapply Forall_lookup_1 in H.
Qed.

Lemma distinct_evict t st :
  Forall distinct_players (heap st) →
  Forall distinct_players (heap (evict t st).1).
Proof.
  intros H. unfold evict.
  destruct (heap st !! tm_room t) as [room|] eqn:E; [|done].
  destruct (list_find _ (players room)) as [[i p]|]; [|done].
  destruct (Player.is_disconnected p); [|done].
  set (st1 := store (tm_room t) (set_players (delete i (players room)) room) st).
  assert (H1 : Forall distinct_players (heap st1)).
  { apply Forall_insert; [done|]. apply distinct_players_delete.
    by eapply Forall_lookup_1 in H. }
  set (st2 := if (length (delete i (players room)) =? 0)%nat
              then set_rooms (reg_delete (tm_roomID t) (rooms st1)) st1
              else st1).
  assert (H2 : heap st2 = heap st1) by (unfold st2; by destruct (_ =? _)%nat).
  destruct (room_ref st2 (tm_roomID t)) as [[a r]|] eqn:E2; simpl.
  - apply room_ref_Some in E2 as [_ E2]. rewrite H2 in *.
    apply Forall_insert; [done|].
    eapply Forall_lookup_1 in H1; [|exact E2]. exact H1.
  - by rewrite H2.
Qed.

(** X13. The server itself never seats two players under one stable id or
    one display name: if in every room object the stable ids and the
    display names are pairwise distinct, they still are after any event
    other than update-players (which stores whatever sequence a client
    sends). *)
Theorem distinct_players_kept (e : Event) (st : State) :
  Forall distinct_players (heap st) →
  (∀ sid k msg, e ≠ UpdatePlayers sid k msg) →
  Forall distinct_players (heap (handle e st).1).
Proof.
  intros H He. destruct e; simpl.
  - by apply distinct_join_room.
  - by destruct (He sid roomID msg).
  - done.
  - done.
  - unfold start_state. destruct (negb _); [done|].
    destruct (room_ref st roomID) as [[a r]|] eqn:E; [|done].
    destruct (JSON_parse msg) as [[]|]; try done. simpl.
    apply room_ref_Some in E as [_ E]. apply Forall_insert; [done|].
    eapply Forall_lookup_1 in H; [|exact E]. exact H.
  - unfold on_chat.
    destruct (room_ref st roomID) as [[a r]|] eqn:E; [|done].
    destruct msg; try done. destruct (_ <? _); [done|]. simpl.
    apply room_ref_Some in E as [_ E]. apply Forall_insert; [done|].
    eapply Forall_lookup_1 in H; [|exact E]. exact H.
  - by apply (distinct_disconnect_scan sid _ (leave_all sid st)).
  - destruct (timers st) as [|t ts]; [done|].
    by apply (distinct_evict t (set_timers ts st)).
Qed.

(** ** Tasks of rooms that are gone *)

Lemma reg_lookup_None_elem k a reg : reg_lookup k reg = None → (k, a) ∉ reg.
Proof.
  induction reg as [|[k' a'] reg IH]; simpl; [by intros _ ?%elem_of_nil|].
  destruct (decide (k' = k)) as [->|Hne]; [done|].
  intros H [Heq|Hin]%elem_of_cons; [congruence|]. by apply IH.
Qed.

Lemma reg_lookup_of_elem k a reg :
  (∀ a1 a2, (k, a1) ∈ reg → (k, a2) ∈ reg → a1 = a2) →
  (k, a) ∈ reg → reg_lookup k reg = Some a.
Proof.
  intros Hfun Hin. destruct (reg_lookup k reg) as [a'|] eqn:E.
  - f_equal. apply Hfun; [by apply reg_lookup_elem | done].
  - by apply (reg_lookup_None_elem k a) in E.
Qed.

Lemma reg_set_absent k a reg :
  reg_lookup k reg = None → reg_set k a reg = reg ++ [(k, a)].
Proof.
  induction reg as [|[k' a'] reg IH]; simpl; [done|].
  destruct (decide (k' = k)); [done|]. intros H. by rewrite IH.
Qed.

Lemma tidy_init : tidy init.
Proof.
  constructor; simpl.
  - intros k a1 a2 H. by apply elem_of_nil in H.
  - intros k1 k2 a H. by apply elem_of_nil in H.
  - intros k a H. by apply elem_of_nil in H.
  - intros t H. by apply elem_of_nil in H.
  - intros a r H. by rewrite lookup_nil in H.
Qed.

Lemma tidy_same st st' :
  heap st' = heap st → rooms st' = rooms st → timers st' = timers st →
  tidy st → tidy st'.
Proof. intros Hh Hr Ht [? ? ? ? ?]. constructor; by rewrite ?Hh, ?Hr, ?Ht. Qed.

Lemma tidy_store a r k st :
  tidy st → (k, a) ∈ rooms st → tidy (store a r st).
Proof.
  intros [Hk Ha Hb Ht Hs] Hin. constructor; simpl; try done.
  - by setoid_rewrite length_insert.
  - setoid_rewrite length_insert. done.
  - intros a' r' Hl Hps. destruct (decide (a = a')) as [<-|Hne]; [by eauto|].
    rewrite list_lookup_insert_ne in Hl by done. by eapply Hs.
Qed.

Lemma tidy_new_room k st :
  tidy st → reg_lookup k (rooms st) = None →
  tidy (set_rooms (rooms st ++ [(k, length (heap st))])
          (set_heap (heap st ++ [emptyRoom]) st)).
Proof.
  intros [Hk Ha Hb Ht Hs] Hnone. constructor; simpl.
  - intros k' a1 a2 [H1|H1%list_elem_of_singleton]%elem_of_app
                    [H2|H2%list_elem_of_singleton]%elem_of_app.
    + by eapply Hk.
    + injection H2 as -> ->. by apply (reg_lookup_None_elem _ a1) in Hnone.
    + injection H1 as -> ->. by apply (reg_lookup_None_elem _ a2) in Hnone.
    + congruence.
  - intros k1 k2 a [H1|H1%list_elem_of_singleton]%elem_of_app
                   [H2|H2%list_elem_of_singleton]%elem_of_app.
    + by eapply Ha.
    + injection H2 as -> ->. apply Hb in H1. lia.
    + injection H1 as -> ->. apply Hb in H2. lia.
    + congruence.
  - intros k' a [H|H%list_elem_of_singleton]%elem_of_app; rewrite length_app; simpl.
    + apply Hb in H. lia.
    + injection H as -> ->. lia.
  - intros t Hin. destruct (Ht t Hin) as [Hlt Hreg]. rewrite length_app. simpl.
    split; [lia|]. intros k' [H|H%list_elem_of_singleton]%elem_of_app.
    + by apply Hreg.
    + injection H as -> H. lia.
  - intros a r Hl Hps. apply lookup_app_Some in Hl as [Hl|[Hge Hl]].
    + destruct (Hs a r Hl Hps) as [k' Hk']. exists k'. apply elem_of_app. by left.
    + apply list_lookup_singleton_Some in Hl as [_ <-]. done.
Qed.

Lemma tidy_delete k st :
  tidy st →
  (∀ a r, (k, a) ∈ rooms st → heap st !! a = Some r → players r = []) →
  tidy (set_rooms (reg_delete k (rooms st)) st).
Proof.
  intros [Hk Ha Hb Ht Hs] Hempty. unfold reg_delete. constructor; simpl.
  - intros k' a1 a2 [_ H1]%list_elem_of_filter [_ H2]%list_elem_of_filter.
    by eapply Hk.
  - intros k1 k2 a [_ H1]%list_elem_of_filter [_ H2]%list_elem_of_filter.
    by eapply Ha.
  - intros k' a [_ H]%list_elem_of_filter. by eapply Hb.
  - intros t Hin. destruct (Ht t Hin) as [Hlt Hreg]. split; [done|].
    intros k' [_ H]%list_elem_of_filter. by apply Hreg.
  - intros a r Hl Hps. destruct (Hs a r Hl Hps) as [k' Hk'].
    exists k'. apply list_elem_of_filter. split; [|done]. simpl.
    intros ->. by apply Hps, (Hempty a r).
Qed.

Lemma tidy_set_timers ts st :
  tidy st →
  (∀ t, t ∈ ts → tm_room t < length (heap st) ∧
                 ∀ k, (k, tm_room t) ∈ rooms st → k = tm_roomID t) →
  tidy (set_timers ts st).
Proof. intros [Hk Ha Hb Ht Hs] Hts. by constructor. Qed.

Lemma tidy_room_ref st k a r :
  tidy st → room_ref st k = Some (a, r) → (k, a) ∈ rooms st.
Proof. intros _ [H _]%room_ref_Some. by apply reg_lookup_elem. Qed.

Lemma tidy_room_ref_None st k :
  tidy st → room_ref st k = None → reg_lookup k (rooms st) = None.
Proof.
  intros [_ _ Hb _ _] H. unfold room_ref in H.
  destruct (reg_lookup k (rooms st)) as [a|] eqn:E; [|done].
  apply reg_lookup_elem, Hb, lookup_lt_is_Some in E as [r Hr].
  by rewrite Hr in H.
Qed.

Lemma tidy_join_room sid roomID player st :
  tidy st → tidy (join_room sid roomID player st).1.
Proof.
  intros Hwf. unfold join_room. destruct player as [c|]; [|done].
  destruct (decide (roomID = EmptyString)); [done|].
  destruct (_ ≫= _); [simpl; eapply tidy_same; [| | |exact Hwf]; done|].
  assert (Hwf0 : tidy (socket_join sid roomID st))
    by (eapply tidy_same; [| | |exact Hwf]; done).
  destruct (room_ref (socket_join sid roomID st) roomID) as [[a r]|] eqn:E.
  - rewrite (ensure_room_existing _ _ _ _ E). simpl.
    eapply tidy_store; [done|]. by eapply tidy_room_ref.
  - rewrite (ensure_room_new _ _ E). simpl.
    apply tidy_room_ref_None in E; [|done].
    rewrite (reg_set_absent _ _ _ E).
    eapply (tidy_store _ _ roomID).
    + by apply (tidy_new_room roomID (socket_join sid roomID st)).
    + simpl. apply elem_of_app. right. by left.
Qed.

Lemma tidy_disconnect_scan sid keys st :
  tidy st → tidy (disconnect_scan sid keys st).1.
Proof.
  intros Hwf. induction keys as [|k keys IH]; simpl; [done|].
  destruct (room_ref st k) as [[a r]|] eqn:E; [|done].
  destruct (list_find _ (players r)) as [[i p]|] eqn:F; [|done]. simpl.
  pose proof (tidy_room_ref _ _ _ _ Hwf E) as Hin.
  apply tidy_set_timers; [by eapply tidy_store|].
  intros t [Ht|Ht%list_elem_of_singleton]%elem_of_app; simpl.
  - rewrite length_insert. by apply Hwf.
  - subst t. simpl. rewrite length_insert. split.
    + by eapply (tidy_bound st).
    + intros k' Hk'. by eapply (tidy_addrs st).
Qed.

Lemma tidy_evict t st :
  tidy st →
  (tm_room t < length (heap st) ∧
   ∀ k, (k, tm_room t) ∈ rooms st → k = tm_roomID t) →
  tidy (evict t st).1.
Proof.
  intros Hwf [Hlt Hreg]. unfold evict.
  destruct (heap st !! tm_room t) as [room|] eqn:E; [|done].
  destruct (list_find _ (players room)) as [[i p]|] eqn:F; [|done].
  destruct (Player.is_disconnected p); [|done].
  assert (Hin : (tm_roomID t, tm_room t) ∈ rooms st).
  { destruct (tidy_seated st Hwf (tm_room t) room E) as [k Hk].
    - apply list_find_Some in F as (F & _). intros Hnil. by rewrite Hnil in F.
    - by rewrite <- (Hreg k Hk). }
  set (ps := delete i (players room)).
  set (st1 := store (tm_room t) (set_players ps room) st).
  assert (Hwf1 : tidy st1) by by eapply tidy_store.
  set (st2 := if (length ps =? 0)%nat
              then set_rooms (reg_delete (tm_roomID t) (rooms st1)) st1
              else st1).
  assert (Hwf2 : tidy st2).
  { unfold st2. destruct (length ps =? 0)%nat eqn:El; [|done].
    apply Nat.eqb_eq, nil_length_inv in El. apply tidy_delete; [done|].
    intros a r Ha Hr. simpl in Ha.
    rewrite (tidy_keys st Hwf _ _ _ Ha Hin) in Hr. simpl in Hr.
    rewrite list_lookup_insert_eq in Hr by done. by injection Hr as <-. }
  destruct (room_ref st2 (tm_roomID t)) as [[a r]|] eqn:E2; [|done]. simpl.
  eapply tidy_store; [done|]. by eapply tidy_room_ref.
Qed.

Lemma tidy_handle e st : tidy st → tidy (handle e st).1.
Proof.
  intros Hwf. destruct e; simpl.
  - by apply tidy_join_room.
  - unfold update_players. destruct (negb _); [done|].
    destruct (room_ref st roomID) as [[a r]|] eqn:E; [|done].
    destruct (JSON_parse msg) as [[]|]; try done. simpl.
    eapply tidy_store; [done|]. by eapply tidy_room_ref.
  - done.
  - done.
  - unfold start_state. destruct (negb _); [done|].
    destruct (room_ref st roomID) as [[a r]|] eqn:E; [|done].
    destruct (JSON_parse msg) as [[]|]; try done. simpl.
    eapply tidy_store; [done|]. by eapply tidy_room_ref.
  - unfold on_chat.
    destruct (room_ref st roomID) as [[a r]|] eqn:E; [|done].
    destruct msg; try done. destruct (_ <? _); [done|]. simpl.
    eapply tidy_store; [done|]. by eapply tidy_room_ref.
  - apply tidy_disconnect_scan. eapply tidy_same; [| | |exact Hwf]; done.
  - destruct (timers st) as [|t ts] eqn:Ets; [done|].
    assert (Ht : ∀ t', t' ∈ t :: ts →
      tm_room t' < length (heap st) ∧
      ∀ k, (k, tm_room t') ∈ rooms st → k = tm_roomID t').
    { intros t' Hin. apply (tidy_timers st Hwf). by rewrite Ets. }
    apply tidy_evict.
    + apply tidy_set_timers; [done|]. intros t' Hin. apply Ht. by right.
    + apply Ht. by left.
Qed.

Lemma reachable_tidy st : reachable st → tidy st.
Proof. induction 1; [apply tidy_init | by apply tidy_handle]. Qed.

(** X14. An eviction task acts only on the room that is still registered
    under its room identifier as the very room object it was scheduled
    for. In every reachable state, when the oldest task fires and its
    room was deleted in between, or deleted and created again under the
    same identifier, the firing changes nothing and emits nothing: a
    room created anew is never touched by the tasks of its predecessor. *)
Theorem stale_task_is_inert (st : State) (t : Timer) (ts : list Timer) :
  reachable st →
  timers st = t :: ts →
  reg_lookup (tm_roomID t) (rooms st) ≠ Some (tm_room t) →
  handle TimerFire st = (set_timers ts st, []).
Proof.
  intros Hwf%reachable_tidy Hts Hgone. simpl. rewrite Hts. unfold evict. simpl.
  destruct (heap st !! tm_room t) as [room|] eqn:E; [|done].
  destruct (list_find _ (players room)) as [[i p]|] eqn:F; [|done].
  destruct (tidy_seated st Hwf (tm_room t) room E) as [k Hk].
  { apply list_find_Some in F as (F & _). intros Hnil. by rewrite Hnil in F. }
  destruct (tidy_timers st Hwf t) as [_ Hreg]; [rewrite Hts; by left|].
  rewrite (Hreg k Hk) in Hk. destruct Hgone.
  apply reg_lookup_of_elem; [|done]. intros a1 a2. apply (tidy_keys st Hwf).
Qed.

(** ** Rooms are independent *)

Lemma handle_registry_other (e : Event) (k k' : string) (st : State) :
  event_room e = Some k → k' ≠ k →
  reg_lookup k' (rooms (handle e st).1) = reg_lookup k' (rooms st).
Proof.
  intros He Hne. destruct e; simpl in He; try done; injection He as ->; simpl.
  - unfold join_room. destruct player as [c|]; [|done].
    destruct (decide (k = EmptyString)); [done|].
    destruct (_ ≫= _); [done|].
    destruct (room_ref (socket_join sid k st) k) as [[a r]|] eqn:E.
    + by rewrite (ensure_room_existing _ _ _ _ E).
    + rewrite (ensure_room_new _ _ E). simpl. by apply reg_lookup_set_ne.
  - unfold update_players. by repeat case_match.
  - unfold start_state. by repeat case_match.
  - unfold on_chat. by repeat case_match.
Qed.

(** X15. In every reachable state, an event that names a room leaves
    every other registered room exactly as it was: players, turn, dice,
    started flag and chat of a room change only through events that name
    it (or through a disconnect or an eviction task). *)
Theorem rooms_independent (e : Event) (k k' : string) (st : State) :
  reachable st →
  event_room e = Some k →
  k' ≠ k →
  room_at (handle e st).1 k' = room_at st k'.
Proof.
  intros Hwf%reachable_tidy He Hne. unfold room_at, room_ref.
  rewrite (handle_registry_other e k k' st He Hne).
  destruct (reg_lookup k' (rooms st)) as [a'|] eqn:E; [|done].
  pose proof (reg_lookup_elem _ _ _ E) as Hin.
  destruct (lookup_lt_is_Some_2 (heap st) a') as [r' Hr'];
    [by eapply (tidy_bound st)|].
  rewrite Hr', (handle_frame e k st a' r' He Hr'); [done|].
  intros Hk%reg_lookup_elem. apply Hne. by eapply (tidy_addrs st).
Qed.

(** ** How the mutation events compose *)

(** X16. update-players overwrites wholesale, so the last writer wins:
    on an existing room, two update-players in a row leave the same
    server state as the second one alone. *)
Theorem update_players_last_write_wins
    (st : State) (sid1 sid2 k : string) (ps1 ps2 : list Player.t) (r : Room) :
  room_at st k = Some r →
  (handle (UpdatePlayers sid2 k (Json (JsArray ps2)))
     (handle (UpdatePlayers sid1 k (Json (JsArray ps1))) st).1).1 =
    (handle (UpdatePlayers sid2 k (Json (JsArray ps2))) st).1 ∧
  room_at (handle (UpdatePlayers sid2 k (Json (JsArray ps2)))
             (handle (UpdatePlayers sid1 k (Json (JsArray ps1))) st).1).1 k =
    Some (mkRoom ps2 (currentTurn r) (dice r) (started r) (chat r)).
Proof.
  intros [a Hr]%room_at_Some. simpl. unfold update_players. simpl.
  rewrite Hr. simpl. rewrite (room_ref_store _ _ _ _ _ Hr). simpl.
  rewrite store_store. split; [done|]. by eapply room_at_store.
Qed.

Lemma chats_room_ref st sid k a r msgs :
  room_ref st k = Some (a, r) →
  Forall (λ s, String.length s ≤ 500) msgs →
  room_ref (run ((λ s, Chat sid k (JsStr s)) <$> msgs) st).1 k =
    Some (a, mkRoom (players r) (currentTurn r) (dice r) (started r)
               (chat r ++ msgs)).
Proof.
  intros Hr Hlen. revert st r Hr.
  induction Hlen as [|s msgs Hs Hlen IH]; intros st r Hr; simpl.
  - rewrite app_nil_r. by destruct r.
  - unfold on_chat at 1. rewrite Hr.
    destruct (Nat.ltb_spec 500 (String.length s)) as [?|_]; [lia|].
    specialize (IH (store a (push_chat s r) st) (push_chat s r)
                  (room_ref_store _ _ _ _ _ Hr)).
    destruct (run _ (store a (push_chat s r) st)) as [st2 out2]. simpl in *.
    by rewrite IH, <- app_assoc.
Qed.

(** X17. Chat lines accepted one after the other are kept in the order of
    arrival: after a run of chat events with strings of at most 500 on an
    existing room, its chat is the old chat followed by these strings in
    order, and nothing else of the room has changed. *)
Theorem chats_append_in_order
    (st : State) (sid k : string) (r : Room) (msgs : list string) :
  room_at st k = Some r →
  Forall (λ s, String.length s ≤ 500) msgs →
  room_at (run ((λ s, Chat sid k (JsStr s)) <$> msgs) st).1 k =
    Some (mkRoom (players r) (currentTurn r) (dice r) (started r)
                 (chat r ++ msgs)).
Proof.
  intros [a Hr]%room_at_Some Hlen. apply room_at_Some. exists a.
  by apply chats_room_ref.
Qed.

(** ** Joining twice *)

Lemma admit_player_idem sid roomID c r :
  admit_player sid roomID c (admit_player sid roomID c r) =
    admit_player sid roomID c r.
Proof.
  pose proof (admit_player_has_id sid roomID c r) as Hin.
  unfold admit_player at 1.
  destruct (list_find _ (players (admit_player sid roomID c r)))
    as [[i p]|] eqn:F; [done|].
  apply list_find_None in F. rewrite Forall_forall in F.
  apply list_elem_of_fmap in Hin as (q & Hq & Hin). by destruct (F q Hin).
Qed.

Lemma admit_player_no_clash sid roomID c r :
  ¬ Exists (name_clash c) (players r) →
  ¬ Exists (name_clash c) (players (admit_player sid roomID c r)).
Proof.
  intros Hc. unfold admit_player. destruct (list_find _ (players r)); [done|].
  simpl. intros [Hex|Hex]%Exists_app; [done|].
  apply Exists_cons in Hex as [[_ Hid]|Hex%Exists_nil]; [|done]. by apply Hid.
Qed.

Lemma store_socket_join_id a r sid roomID st :
  heap st !! a = Some r → (sid, roomID) ∈ subs st →
  store a r (socket_join sid roomID st) = st.
Proof.
  intros Ha Hin. destruct st as [h rg ts sb]. simpl in *.
  unfold store, socket_join, set_heap, set_subs. simpl. f_equal.
  - by apply list_insert_id.
  - apply subseteq_union_1_L. by apply singleton_subseteq_l.
Qed.

(** X18. An accepted join-room is idempotent: sent again on the same
    connection with the same claim it leaves the server state exactly as
    the first one left it and broadcasts the same five messages; no
    second seat is created. *)
Theorem join_twice_is_join_once
    (st : State) (sid roomID : string) (c : Player.t) :
  roomID ≠ EmptyString →
  ¬ Exists (name_clash c) (players_of st roomID) →
  handle (JoinRoom sid roomID (Some c))
    (handle (JoinRoom sid roomID (Some c)) st).1 =
  handle (JoinRoom sid roomID (Some c)) st.
Proof.
  intros Hne Hc.
  change (join_room sid roomID (Some c) (join_room sid roomID (Some c) st).1 =
          join_room sid roomID (Some c) st).
  set (st0 := ensure_room roomID (socket_join sid roomID st)).
  set (r1 := admit_player sid roomID c st0.2).
  set (st1 := store st0.1.2 r1 st0.1.1).
  assert (H1 : join_room sid roomID (Some c) st = (st1, join_broadcast roomID r1))
    by by apply join_room_accepted.
  pose proof (ensure_room_ref (socket_join sid roomID st) roomID) as Href.
  fold st0 in Href.
  assert (Href1 : room_ref st1 roomID = Some (st0.1.2, r1))
    by by eapply room_ref_store.
  assert (Href2 : room_ref (socket_join sid roomID st1) roomID = Some (st0.1.2, r1))
    by exact Href1.
  assert (Hc1 : ¬ Exists (name_clash c) (players_of st1 roomID)).
  { unfold players_of, room_at. rewrite Href1. simpl.
    apply admit_player_no_clash. unfold st0.
    by rewrite players_of_ensure_room. }
  assert (Hsub : (sid, roomID) ∈ subs st1).
  { change st1 with (st1, join_broadcast roomID r1).1. rewrite <- H1.
    by apply subs_join_room_self. }
  rewrite H1. cbn [fst].
  rewrite (join_room_accepted _ _ _ _ Hne Hc1).
  rewrite (ensure_room_existing _ _ _ _ Href2). cbn [fst snd].
  assert (Hidem : admit_player sid roomID c r1 = r1)
    by apply admit_player_idem.
  rewrite !Hidem. f_equal. apply store_socket_join_id; [|done].
  by apply room_ref_Some in Href1 as [_ ?].
Qed.

(** ** The further theorems at concrete inputs *)

Lemma alice_alone_rooms : rooms alice_alone = [("ABC123", 0)].
Proof. by vm_compute. Qed.

Lemma alice_alone_heap : heap alice_alone = [alice_room].
Proof. by vm_compute. Qed.

Lemma bob_dropped_ref :
  room_ref bob_dropped "ABC123" = Some (0, bob_dropped_room).
Proof. by vm_compute. Qed.

Lemma room_isolation_witness :
  event_room (Chat "s3" "ABC123" (JsStr "hi")) = Some "ABC123" ∧
  ∃ r, heap room_recreated !! 0 = Some r ∧
       heap (handle (Chat "s3" "ABC123" (JsStr "hi")) room_recreated).1 !! 0 =
         Some r.
Proof.
  split; [reflexivity|].
  destruct (room_isolation (Chat "s3" "ABC123" (JsStr "hi")) "ABC123"
              room_recreated eq_refl) as [Hframe _].
  eexists. split; [vm_compute; reflexivity|].
  apply Hframe; [vm_compute; reflexivity|]. vm_compute. discriminate.
Defined.

Lemma disconnect_without_seat_witness :
  (∀ k r, room_at alice_alone k = Some r →
          Forall (λ p, Player.socketID p ≠ "s2") (players r)) ∧
  handle (Disconnect "s2") alice_alone = (leave_all "s2" alice_alone, []).
Proof.
  assert (H : ∀ k r, room_at alice_alone k = Some r →
                     Forall (λ p, Player.socketID p ≠ "s2") (players r)).
  { intros k r. unfold room_at, room_ref.
    rewrite alice_alone_rooms, alice_alone_heap. simpl.
    destruct (decide ("ABC123" = k)); simpl; [|discriminate].
    intros [= <-]. repeat constructor. discriminate. }
  split; [exact H|]. exact (disconnect_without_seat "s2" alice_alone H).
Defined.

Lemma disconnect_opens_grace_period_witness :
  room_at alice_alone "ABC123" = Some alice_room ∧
  Exists (λ p, Player.socketID p = "s1") (players alice_room) ∧
  ∃ k' a p,
    (handle (Disconnect "s1") alice_alone).2 =
      [ToRoom k' "chat"
         (ArgChat [Player.name p +:+ " disconnected. Waiting 60 seconds..."])] ∧
    timers (handle (Disconnect "s1") alice_alone).1 =
      [mkTimer a k' "s1" (Player.name p)].
Proof.
  assert (Hex : Exists (λ p, Player.socketID p = "s1") (players alice_room))
    by (apply Exists_cons_hd; reflexivity).
  split; [exact alice_alone_room|]. split; [exact Hex|].
  destruct (disconnect_opens_grace_period "s1" "ABC123" alice_alone alice_room
              alice_alone_room Hex)
    as (k' & a & room' & i & p & Href & _ & Hout & Htimers & _).
  exists k', a, p. split.
  - rewrite Hout. apply room_ref_Some in Href as [Hk Hr].
    rewrite alice_alone_rooms in Hk. rewrite alice_alone_heap in Hr.
    simpl in Hk. destruct (decide ("ABC123" = k')); [|discriminate].
    injection Hk as <-. simpl in Hr. injection Hr as <-. reflexivity.
  - rewrite Htimers. reflexivity.
Defined.

Lemma evict_registered_room_witness :
  room_ref bob_dropped "ABC123" = Some (0, bob_dropped_room) ∧
  list_find (λ p, Player.socketID p = "s2") (players bob_dropped_room) =
    Some (1, bob_flagged) ∧
  Player.is_disconnected bob_flagged = true ∧
  (evict bob_timer bob_dropped).2 =
    [ToRoom "ABC123" "update-players" (ArgPlayers (players alice_room));
     ToRoom "ABC123" "chat"
       (ArgChat ["Bob disconnected. Waiting 60 seconds..."; "Bob disconnected."])].
Proof.
  assert (Hfind : list_find (λ p, Player.socketID p = "s2")
                    (players bob_dropped_room) = Some (1, bob_flagged))
    by (vm_compute; reflexivity).
  split; [exact bob_dropped_ref|]. split; [exact Hfind|]. split; [reflexivity|].
  destruct (evict_registered_room bob_timer bob_dropped bob_dropped_room 1
              bob_flagged bob_dropped_ref Hfind eq_refl) as [Hsome _].
  rewrite Hsome; [reflexivity|]. vm_compute. discriminate.
Defined.

Lemma overwrite_prevents_eviction_witness :
  room_ref bob_dropped "ABC123" = Some (0, bob_dropped_room) ∧
  timers bob_dropped = [bob_timer] ∧
  handle TimerFire
    (handle (UpdatePlayers "s3" "ABC123"
               (Json (JsArray (players alice_room ++ [bob_back])))) bob_dropped).1 =
    (set_timers []
       (store 0 (set_players (players alice_room ++ [bob_back]) bob_dropped_room)
          bob_dropped), []).
Proof.
  assert (Hts : timers bob_dropped = [bob_timer]) by (vm_compute; reflexivity).
  split; [exact bob_dropped_ref|]. split; [exact Hts|].
  apply (overwrite_prevents_eviction bob_timer [] bob_dropped "s3" "ABC123"
           bob_dropped_room (players alice_room ++ [bob_back])
           bob_dropped_ref Hts).
  intros i p H. vm_compute in H. discriminate H.
Defined.



Lemma distinct_players_kept_witness :
  Forall distinct_players (heap alice_alone) ∧
  Forall distinct_players
    (heap (handle (JoinRoom "s2" "ABC123" (Some bob)) alice_alone).1).
Proof.
  assert (H : Forall distinct_players (heap alice_alone)).
  { rewrite alice_alone_heap. constructor; [|constructor].
    split; apply NoDup_singleton. }
  split; [exact H|].
  apply (distinct_players_kept (JoinRoom "s2" "ABC123" (Some bob)) alice_alone H).
  intros sid k msg. discriminate.
Defined.

Lemma stale_task_is_inert_witness :
  reachable room_recreated ∧
  timers room_recreated = [bob_timer] ∧
  reg_lookup "ABC123" (rooms room_recreated) = Some 1 ∧
  handle TimerFire room_recreated = (set_timers [] room_recreated, []).
Proof.
  assert (Hreach : reachable room_recreated) by apply reachable_run, reach_init.
  assert (Hts : timers room_recreated = [bob_timer]) by (vm_compute; reflexivity).
  split; [exact Hreach|]. split; [exact Hts|]. split; [vm_compute; reflexivity|].
  apply (stale_task_is_inert room_recreated bob_timer [] Hreach Hts).
  vm_compute. discriminate.
Defined.

Lemma rooms_independent_witness :
  reachable alice_alone ∧
  room_at (handle (JoinRoom "s2" "XYZ" (Some bob)) alice_alone).1 "ABC123" =
    Some alice_room.
Proof.
  split; [exact alice_alone_reachable|].
  rewrite (rooms_independent (JoinRoom "s2" "XYZ" (Some bob)) "XYZ" "ABC123"
             alice_alone alice_alone_reachable eq_refl); [|discriminate].
  exact alice_alone_room.
Defined.

Lemma update_players_last_write_wins_witness :
  room_at alice_alone "ABC123" = Some alice_room ∧
  room_at (handle (UpdatePlayers "s2" "ABC123" (Json (JsArray [bob])))
             (handle (UpdatePlayers "s1" "ABC123" (Json (JsArray []))) alice_alone).1).1
    "ABC123" = Some (mkRoom [bob] 0%Z (-1, -1)%Z false []).
Proof.
  split; [exact alice_alone_room|].
  exact (proj2 (update_players_last_write_wins alice_alone "s1" "s2" "ABC123"
                  [] [bob] alice_room alice_alone_room)).
Defined.

Lemma chats_append_in_order_witness :
  room_at alice_alone "ABC123" = Some alice_room ∧
  Forall (λ s, String.length s ≤ 500) ["hi"; "there"] ∧
  room_at (run ((λ s, Chat "s1" "ABC123" (JsStr s)) <$> ["hi"; "there"])
             alice_alone).1 "ABC123" =
    Some (mkRoom (players alice_room) 0%Z (-1, -1)%Z false ["hi"; "there"]).
Proof.
  assert (Hlen : Forall (λ s, String.length s ≤ 500) ["hi"; "there"]).
  { repeat constructor; simpl; lia. }
  split; [exact alice_alone_room|]. split; [exact Hlen|].
  exact (chats_append_in_order alice_alone "s1" "ABC123" alice_room
           ["hi"; "there"] alice_alone_room Hlen).
Defined.

Lemma join_twice_is_join_once_witness :
  "ABC123" ≠ EmptyString ∧
  ¬ Exists (name_clash alice) (players_of init "ABC123") ∧
  handle (JoinRoom "s1" "ABC123" (Some alice))
    (handle (JoinRoom "s1" "ABC123" (Some alice)) init).1 =
  handle (JoinRoom "s1" "ABC123" (Some alice)) init.
Proof.
  assert (Hne : "ABC123" ≠ EmptyString) by discriminate.
  assert (Hc : ¬ Exists (name_clash alice) (players_of init "ABC123")).
  { intros H. by apply Exists_nil in H. }
  split; [exact Hne|]. split; [exact Hc|].
  exact (join_twice_is_join_once init "s1" "ABC123" alice Hne Hc).
Defined.
